(** * The library view engine of [src/lib/store.ts]

    A shallow embedding of the photo store: the bounded photo cache and its
    pagination ([loadAllPhotos], [loadMorePhotos]), the derived stores
    [filteredPhotos] and [groupedPhotos], the mutating commands
    ([toggleFavorite], [deletePhotos], [hardDeletePhotos], [renamePhoto]) and
    the multi-selection state.

    Svelte stores are fields of one [Store] record that every command threads
    through; an [await invoke(...)] is a value of type [Settled] handed to the
    command, [Rejected] being the promise that throws.  Everything the source
    takes from the JavaScript runtime (the clock, the time zone, date
    parsing, locale-aware string functions) is an explicit argument. *)

From Stdlib Require Import ZArith List String Ascii Bool Lia Permutation Sorted.
From stdpp Require Import base list gmap strings pretty.
Import ListNotations.

Local Open Scope string_scope.
Local Open Scope list_scope.
Local Open Scope Z_scope.

(** ** The JavaScript runtime *)

Module JS.

(** *** Truthiness

    [if (x)] on a [string], a [string | null] and a [number | null]. *)

Definition truthyString (s : string) : bool :=
  match s with EmptyString => false | String _ _ => true end.

Definition truthyNullableString (o : option string) : bool :=
  match o with Some s => truthyString s | None => false end.

Definition truthyNullableNumber (o : option Z) : bool :=
  match o with Some n => negb (n =? 0) | None => false end.

(** [a || b] on a [string | null] left operand and a string right operand. *)
Definition orString (a : option string) (b : string) : string :=
  match a with
  | Some s => if truthyString s then s else b
  | None => b
  end.

(** [x === y] where [x] is a number that may be NaN ([None]) and [y] is a
    [number | null] ([None] is [null]): NaN and [null] equal nothing. *)
Definition strictEq (x : option Z) (y : option Z) : bool :=
  match x, y with
  | Some a, Some b => a =? b
  | _, _ => false
  end.

(** [x >= y] on time values; a comparison with NaN is false. *)
Definition geNum (x y : option Z) : bool :=
  match x, y with
  | Some a, Some b => b <=? a
  | _, _ => false
  end.

(** [x - y] on numbers that may be NaN. *)
Definition subNum (x y : option Z) : option Z :=
  match x, y with
  | Some a, Some b => Some (a - b)
  | _, _ => None
  end.

(** *** Strings *)

(** [s.includes(sub)]. *)
Fixpoint includes (s sub : string) : bool :=
  if String.prefix sub s then true
  else match s with
       | EmptyString => false
       | String _ s' => includes s' sub
       end.

(** [s.padStart(2, '0')]. *)
Definition padStart2 (s : string) : string :=
  match s with
  | EmptyString => "00"
  | String c EmptyString => String "0"%char s
  | _ => s
  end.

(** [String(n)] for an integral number, NaN printing as ["NaN"]. *)
Definition numberToString (n : option Z) : string :=
  match n with Some z => pretty z | None => "NaN" end.

(** [arr[i]] inside a template literal: a missing element prints as
    ["undefined"]. *)
Definition indexOrUndefined (arr : list string) (i : option Z) : string :=
  match i with
  | Some z => if z <? 0 then "undefined" else nth (Z.to_nat z) arr "undefined"
  | None => "undefined"
  end.

(** *** Arrays *)

(** [arr.slice(start)] for [0 <= start]. *)
Definition slice {A} (start : nat) (arr : list A) : list A := skipn start arr.

(** [arr.includes(x)] on an array of strings. *)
Definition arrayIncludes (arr : list string) (x : string) : bool :=
  existsb (String.eqb x) arr.

(** [arr.includes(n)] on an array of numbers. *)
Definition arrayIncludesNum (arr : list Z) (n : Z) : bool :=
  existsb (Z.eqb n) arr.

(** [Array.prototype.sort(compareFn)] is stable: an element moves in front
    of another only when the comparator puts it strictly before.  A
    comparator result of NaN counts as [0].  For a consistent comparator every
    stable sort returns this list; for an inconsistent one ECMAScript leaves
    the order to the implementation and this is one admissible order. *)
Section Sort.
Context {A : Type} (compareFn : A -> A -> option Z).

Definition comesBefore (a b : A) : bool :=
  match compareFn a b with
  | Some v => v <=? 0
  | None => true
  end.

Fixpoint insertSorted (x : A) (l : list A) : list A :=
  match l with
  | [] => [x]
  | y :: l' => if comesBefore x y then x :: l else y :: insertSorted x l'
  end.

Fixpoint sort (l : list A) : list A :=
  match l with
  | [] => []
  | x :: l' => insertSorted x (sort l')
  end.
End Sort.

(** *** Dates

    A time value is a number of milliseconds since the epoch; [None] is the
    NaN of an Invalid Date, and time values are not clipped to the range of
    ECMAScript's TimeClip.  The calendar is ECMAScript's proleptic Gregorian
    one: [civilFromDays] computes YearFromTime, MonthFromTime and DateFromTime
    of a day number at once and [daysFromCivil] is the day number MakeDay
    looks for. *)

Definition msPerDay : Z := 86400000.
Definition Day (t : Z) : Z := t / msPerDay.
Definition TimeWithinDay (t : Z) : Z := t mod msPerDay.
Definition WeekDay (t : Z) : Z := (Day t + 4) mod 7.

Definition civilFromDays (z : Z) : Z * Z * Z :=
  let z := z + 719468 in
  let era := z / 146097 in
  let doe := z - era * 146097 in
  let yoe := (doe - doe / 1460 + doe / 36524 - doe / 146096) / 365 in
  let doy := doe - (365 * yoe + yoe / 4 - yoe / 100) in
  let mp := (5 * doy + 2) / 153 in
  let d := doy - (153 * mp + 2) / 5 + 1 in
  let m := if mp <? 10 then mp + 3 else mp - 9 in
  (yoe + era * 400 + (if m <=? 2 then 1 else 0), m, d).

Definition daysFromCivil (y m d : Z) : Z :=
  let y := if m <=? 2 then y - 1 else y in
  let era := y / 400 in
  let yoe := y - era * 400 in
  let mp := if 2 <? m then m - 3 else m + 9 in
  let doy := (153 * mp + 2) / 5 + d - 1 in
  let doe := yoe * 365 + yoe / 4 - yoe / 100 + doy in
  era * 146097 + doe - 719468.

Definition YearFromTime (t : Z) : Z := fst (fst (civilFromDays (Day t))).
(** Months count from zero: January is [0]. *)
Definition MonthFromTime (t : Z) : Z := snd (fst (civilFromDays (Day t))) - 1.
Definition DateFromTime (t : Z) : Z := snd (civilFromDays (Day t)).

Definition MakeDay (year month date : Z) : Z :=
  let ym := year + month / 12 in
  let mn := month mod 12 in
  daysFromCivil ym (mn + 1) 1 + date - 1.

Definition MakeDate (day time : Z) : Z := day * msPerDay + time.

(** What the host environment decides: how a date string parses, the local
    time zone (ECMAScript's LocalTime and UTC conversions), and the
    locale-aware string operations. *)
Record Host := {
  Date_parse : string -> option Z;
  LocalTime : Z -> Z;
  UTC : Z -> Z;
  toLowerCase : string -> string;
  localeCompare : string -> string -> Z
}.

Section DateMethods.
Variable h : Host.

(** [new Date(s)]. *)
Definition newDate (s : string) : option Z := Date_parse h s.

Definition getTime (d : option Z) : option Z := d.

Definition getFullYear (d : option Z) : option Z :=
  option_map (fun t => YearFromTime (LocalTime h t)) d.

Definition getMonth (d : option Z) : option Z :=
  option_map (fun t => MonthFromTime (LocalTime h t)) d.

Definition getDate (d : option Z) : option Z :=
  option_map (fun t => DateFromTime (LocalTime h t)) d.

Definition getDay (d : option Z) : option Z :=
  option_map (fun t => WeekDay (LocalTime h t)) d.

(** [new Date(year, month, date)]: local midnight of that day; a year in
    [0..99] means [1900 + year]; a NaN component gives an Invalid Date. *)
Definition newDateYMD (year month date : option Z) : option Z :=
  match year, month, date with
  | Some y, Some m, Some d =>
      let yr := if (0 <=? y) && (y <=? 99) then 1900 + y else y in
      Some (UTC h (MakeDate (MakeDay yr m d) 0))
  | _, _, _ => None
  end.

(** [d.setDate(dt)]: the day of the month is replaced, the local time of
    day kept; returns the new time value of [d]. *)
Definition setDate (d : option Z) (dt : option Z) : option Z :=
  match d, dt with
  | Some t, Some n =>
      let lt := LocalTime h t in
      Some (UTC h (MakeDate (MakeDay (YearFromTime lt) (MonthFromTime lt) n)
                            (TimeWithinDay lt)))
  | _, _ => None
  end.
End DateMethods.

(** *** A concrete host: UTC, ISO-8601 strings, ASCII letters *)

Definition digitValue (c : ascii) : option Z :=
  let n := Z.of_N (N_of_ascii c) in
  if (48 <=? n) && (n <=? 57) then Some (n - 48) else None.

Fixpoint digits (acc : Z) (cs : list ascii) : option Z :=
  match cs with
  | [] => Some acc
  | c :: cs' =>
      match digitValue c with
      | Some v => digits (acc * 10 + v) cs'
      | None => None
      end
  end.

Definition number (cs : list ascii) : option Z :=
  match cs with [] => None | _ => digits 0 cs end.

Definition inRange (lo hi : Z) (o : option Z) : option Z :=
  match o with
  | Some v => if (lo <=? v) && (v <=? hi) then Some v else None
  | None => None
  end.

Definition isoDay (y m d : list ascii) : option Z :=
  match number y, inRange 1 12 (number m), inRange 1 31 (number d) with
  | Some yy, Some mm, Some dd => Some (MakeDay yy (mm - 1) dd)
  | _, _, _ => None
  end.

Definition isoTime (hh mi ss ms : list ascii) : option Z :=
  match inRange 0 23 (number hh), inRange 0 59 (number mi),
        inRange 0 59 (number ss), number ms with
  | Some a, Some b, Some c, Some e => Some (((a * 60 + b) * 60 + c) * 1000 + e)
  | _, _, _, _ => None
  end.

(** [YYYY-MM-DD], [YYYY-MM-DDTHH:mm:ssZ] and [YYYY-MM-DDTHH:mm:ss.sssZ], all
    read as UTC; any other string is an Invalid Date. *)
Definition isoParse (s : string) : option Z :=
  match list_ascii_of_string s with
  | [y1; y2; y3; y4; "-"; m1; m2; "-"; d1; d2]%char =>
      option_map (fun dy => MakeDate dy 0) (isoDay [y1; y2; y3; y4] [m1; m2] [d1; d2])
  | [y1; y2; y3; y4; "-"; m1; m2; "-"; d1; d2; "T"; h1; h2; ":"; i1; i2; ":"; s1; s2; "Z"]%char =>
      match isoDay [y1; y2; y3; y4] [m1; m2] [d1; d2],
            isoTime [h1; h2] [i1; i2] [s1; s2] ["0"%char] with
      | Some dy, Some tm => Some (MakeDate dy tm)
      | _, _ => None
      end
  | [y1; y2; y3; y4; "-"; m1; m2; "-"; d1; d2; "T"; h1; h2; ":"; i1; i2; ":"; s1; s2; ".";
     f1; f2; f3; "Z"]%char =>
      match isoDay [y1; y2; y3; y4] [m1; m2] [d1; d2],
            isoTime [h1; h2] [i1; i2] [s1; s2] [f1; f2; f3] with
      | Some dy, Some tm => Some (MakeDate dy tm)
      | _, _ => None
      end
  | _ => None
  end.

Definition asciiLower (c : ascii) : ascii :=
  let n := N_of_ascii c in
  if (65 <=? n)%N && (n <=? 90)%N then ascii_of_N (n + 32) else c.

Fixpoint asciiToLowerCase (s : string) : string :=
  match s with
  | EmptyString => EmptyString
  | String c s' => String (asciiLower c) (asciiToLowerCase s')
  end.

Definition ordinalCompare (a b : string) : Z :=
  match String.compare a b with
  | Lt => -1
  | Eq => 0
  | Gt => 1
  end.

Definition utcHost : Host := {|
  Date_parse := isoParse;
  LocalTime := fun t => t;
  UTC := fun t => t;
  toLowerCase := asciiToLowerCase;
  localeCompare := ordinalCompare
|}.

End JS.

(** ** Types *)

(** No function of the store reads the EXIF group; [gpsLat] and [gpsLon],
    floating-point numbers in the source, are integers here. *)
Record Photo := {
  id : Z;
  path : string;
  filename : string;
  folderRel : string;
  width : option Z;
  height : option Z;
  takenAt : option string;
  modifiedAt : string;
  sizeBytes : Z;
  mediaType : string;
  source : string;
  isFavorite : bool;
  isDeleted : bool;
  deletedAt : option string;
  cameraMake : option string;
  cameraModel : option string;
  lens : option string;
  iso : option Z;
  shutterSpeed : option string;
  aperture : option string;
  focalLength : option string;
  gpsLat : option Z;
  gpsLon : option Z
}.

Record SourceDirectory := {
  sd_id : Z;
  sd_name : string;
  rootPath : string;
  photoCount : Z
}.

Record FilterState := {
  selectedFolder : option string;
  selectedYear : option Z;
  selectedMonth : option Z;
  selectedMediaTypes : list string
}.

Module SortBy.
Inductive t := date_desc | date_asc | name_asc | name_desc | size_desc | size_asc.
End SortBy.

Module SidebarSection.
Inductive t := all | recents | favorites | videos | source | trash | album | tag.
End SidebarSection.

(** The object spreads [{ ...p, isFavorite: isFav }] and
    [{ ...p, filename: newFilename, path: newPath }]. *)
Definition withFavorite (p : Photo) (isFav : bool) : Photo :=
  {| id := id p; path := path p; filename := filename p; folderRel := folderRel p;
     width := width p; height := height p; takenAt := takenAt p;
     modifiedAt := modifiedAt p; sizeBytes := sizeBytes p; mediaType := mediaType p;
     source := source p; isFavorite := isFav; isDeleted := isDeleted p;
     deletedAt := deletedAt p; cameraMake := cameraMake p; cameraModel := cameraModel p;
     lens := lens p; iso := iso p; shutterSpeed := shutterSpeed p;
     aperture := aperture p; focalLength := focalLength p;
     gpsLat := gpsLat p; gpsLon := gpsLon p |}.

Definition withName (p : Photo) (newFilename newPath : string) : Photo :=
  {| id := id p; path := newPath; filename := newFilename; folderRel := folderRel p;
     width := width p; height := height p; takenAt := takenAt p;
     modifiedAt := modifiedAt p; sizeBytes := sizeBytes p; mediaType := mediaType p;
     source := source p; isFavorite := isFavorite p; isDeleted := isDeleted p;
     deletedAt := deletedAt p; cameraMake := cameraMake p; cameraModel := cameraModel p;
     lens := lens p; iso := iso p; shutterSpeed := shutterSpeed p;
     aperture := aperture p; focalLength := focalLength p;
     gpsLat := gpsLat p; gpsLon := gpsLon p |}.

Definition PAGE_SIZE : Z := 100.
Definition MAX_PHOTOS_IN_MEMORY : Z := 2000.

(** [arr.length]. *)
Definition arrayLength {A} (arr : list A) : Z := Z.of_nat (length arr).

(** ** Derived stores *)

(** [p.takenAt || p.modifiedAt]: an absent and an empty [takenAt] both give
    way to [modifiedAt]. *)
Definition effectiveDate (p : Photo) : string :=
  JS.orString (takenAt p) (modifiedAt p).

Section Derived.
Variable h : JS.Host.
(** The time value a [new Date()] evaluated during the recomputation holds. *)
Variable now : Z.

(** The cutoff of the recents section:
    [const cutoff = new Date(); cutoff.setDate(cutoff.getDate() - 30)]. *)
Definition recentsCutoff : option Z :=
  let cutoff := Some now in
  JS.setDate h cutoff (JS.subNum (JS.getDate h cutoff) (Some 30)).

(** The source-based and the section-based stage. *)
Definition sourceStage (activeSection : SidebarSection.t) (activeSource : option string)
    (filtered : list Photo) : list Photo :=
  match activeSection, activeSource with
  | SidebarSection.source, Some src =>
      if JS.truthyString src
      then List.filter (fun p => String.eqb (source p) src) filtered
      else filtered
  | _, _ => filtered
  end.

Definition sectionStage (activeSection : SidebarSection.t) (filtered : list Photo)
    : list Photo :=
  match activeSection with
  | SidebarSection.favorites => List.filter (fun p => isFavorite p) filtered
  | SidebarSection.videos =>
      List.filter (fun p => String.eqb (mediaType p) "video") filtered
  | SidebarSection.recents =>
      let cutoff := recentsCutoff in
      List.filter (fun p =>
                     let date := JS.newDate h (effectiveDate p) in
                     JS.geNum date cutoff) filtered
  | _ => filtered
  end.

Definition searchStage (searchQuery : string) (filtered : list Photo) : list Photo :=
  if JS.truthyString searchQuery
  then
    let query := JS.toLowerCase h searchQuery in
    List.filter (fun p =>
                   JS.includes (JS.toLowerCase h (filename p)) query
                   || JS.includes (JS.toLowerCase h (path p)) query
                   || JS.includes (JS.toLowerCase h (folderRel p)) query) filtered
  else filtered.

Definition mediaTypeStage (activeSection : SidebarSection.t) (filters : FilterState)
    (filtered : list Photo) : list Photo :=
  match activeSection with
  | SidebarSection.videos => filtered
  | _ => List.filter (fun p => JS.arrayIncludes (selectedMediaTypes filters) (mediaType p))
                     filtered
  end.

Definition folderStage (filters : FilterState) (filtered : list Photo) : list Photo :=
  match selectedFolder filters with
  | Some folder =>
      if JS.truthyString folder
      then List.filter (fun p => String.eqb (folderRel p) folder) filtered
      else filtered
  | None => filtered
  end.

(** [p.takenAt ? new Date(p.takenAt).getFullYear()
               : new Date(p.modifiedAt).getFullYear()]. *)
Definition yearOf (p : Photo) : option Z :=
  match takenAt p with
  | Some taken =>
      if JS.truthyString taken
      then JS.getFullYear h (JS.newDate h taken)
      else JS.getFullYear h (JS.newDate h (modifiedAt p))
  | None => JS.getFullYear h (JS.newDate h (modifiedAt p))
  end.

Definition yearStage (filters : FilterState) (filtered : list Photo) : list Photo :=
  if JS.truthyNullableNumber (selectedYear filters)
  then List.filter (fun p =>
                      let year := yearOf p in
                      JS.strictEq year (selectedYear filters)) filtered
  else filtered.

Definition monthMatches (filters : FilterState) (p : Photo) : bool :=
  let date := JS.newDate h (effectiveDate p) in
  JS.strictEq (JS.getFullYear h date) (selectedYear filters)
  && JS.strictEq (JS.getMonth h date) (selectedMonth filters).

Definition monthStage (filters : FilterState) (filtered : list Photo) : list Photo :=
  if bool_decide (selectedMonth filters <> None)
     && JS.truthyNullableNumber (selectedYear filters)
  then List.filter (monthMatches filters) filtered
  else filtered.

(** The comparator handed to [sort]. *)
Definition compareBy (sortBy : SortBy.t) (a b : Photo) : option Z :=
  let time p := JS.getTime (JS.newDate h (effectiveDate p)) in
  match sortBy with
  | SortBy.date_desc => JS.subNum (time b) (time a)
  | SortBy.date_asc => JS.subNum (time a) (time b)
  | SortBy.name_asc => Some (JS.localeCompare h (filename a) (filename b))
  | SortBy.name_desc => Some (JS.localeCompare h (filename b) (filename a))
  | SortBy.size_desc => Some (sizeBytes b - sizeBytes a)
  | SortBy.size_asc => Some (sizeBytes a - sizeBytes b)
  end.

(** All stages before the sort, in the order of the source. *)
Definition narrowed (photos : list Photo) (filters : FilterState) (searchQuery : string)
    (activeSection : SidebarSection.t) (activeSource : option string) : list Photo :=
  let filtered := photos in
  let filtered := sourceStage activeSection activeSource filtered in
  let filtered := sectionStage activeSection filtered in
  let filtered := searchStage searchQuery filtered in
  let filtered := mediaTypeStage activeSection filters filtered in
  let filtered := folderStage filters filtered in
  let filtered := yearStage filters filtered in
  let filtered := monthStage filters filtered in
  filtered.

Definition filteredPhotos (photos : list Photo) (filters : FilterState)
    (searchQuery : string) (sortBy : SortBy.t) (activeSection : SidebarSection.t)
    (activeSource : option string) : list Photo :=
  let filtered := narrowed photos filters searchQuery activeSection activeSource in
  JS.sort (compareBy sortBy) filtered.

End Derived.

(** *** Grouping by date *)

(** A JavaScript [Map] with string keys: iteration follows insertion order,
    [set] on a present key keeps its position. *)
Module JSMap.
Section JSMap.
Context {V : Type}.

Definition t := list (string * V).

Definition empty : t := [].

Fixpoint get (k : string) (m : t) : option V :=
  match m with
  | [] => None
  | (k', v) :: m' => if String.eqb k' k then Some v else get k m'
  end.

Definition has (k : string) (m : t) : bool :=
  match get k m with Some _ => true | None => false end.

Fixpoint set (k : string) (v : V) (m : t) : t :=
  match m with
  | [] => [(k, v)]
  | (k', v') :: m' => if String.eqb k' k then (k', v) :: m' else (k', v') :: set k v m'
  end.

(** The value stored under [k] is an object the map shares with its reader:
    [m.get(k).push(x)] changes the entry in place. *)
Fixpoint mutate (k : string) (f : V -> V) (m : t) : t :=
  match m with
  | [] => []
  | (k', v) :: m' => if String.eqb k' k then (k', f v) :: m' else (k', v) :: mutate k f m'
  end.

End JSMap.
Arguments t : clear implicits.
End JSMap.

Module Group.
Record t := { label : string; dateKey : string; photos : list Photo }.
End Group.

Definition monthNames : list string :=
  ["January"; "February"; "March"; "April"; "May"; "June";
   "July"; "August"; "September"; "October"; "November"; "December"].

Section Grouping.
Variable h : JS.Host.
Variable now : Z.

Definition today : option Z :=
  JS.newDateYMD h (JS.getFullYear h (Some now)) (JS.getMonth h (Some now))
                (JS.getDate h (Some now)).

Definition yesterday : option Z := JS.subNum (JS.getTime today) (Some 86400000).

Definition thisWeekStart : option Z :=
  JS.subNum (JS.getTime today)
            (option_map (fun d => d * 86400000) (JS.getDay h today)).

Definition thisMonthStart : option Z :=
  JS.newDateYMD h (JS.getFullYear h (Some now)) (JS.getMonth h (Some now)) (Some 1).

(** The label and the key of one photo, [(label, dateKey)]. *)
Definition labelAndKey (photo : Photo) : string * string :=
  let date := JS.newDate h (effectiveDate photo) in
  let photoDay :=
    JS.newDateYMD h (JS.getFullYear h date) (JS.getMonth h date) (JS.getDate h date) in
  if JS.strictEq (JS.getTime photoDay) (JS.getTime today) then ("Today", "today")
  else if JS.strictEq (JS.getTime photoDay) (JS.getTime yesterday)
  then ("Yesterday", "yesterday")
  else if JS.geNum photoDay thisWeekStart then ("This Week", "this-week")
  else if JS.geNum photoDay thisMonthStart then ("This Month", "this-month")
  else
    (JS.indexOrUndefined monthNames (JS.getMonth h date) +:+ " "
       +:+ JS.numberToString (JS.getFullYear h date),
     JS.numberToString (JS.getFullYear h date) +:+ "-"
       +:+ JS.padStart2 (JS.numberToString (JS.getMonth h date))).

(** One turn of the loop over [$filtered], on the pair
    [(groupMap, groupLabels)]. *)
Definition groupStep (maps : JSMap.t (list Photo) * JSMap.t string) (photo : Photo)
    : JSMap.t (list Photo) * JSMap.t string :=
  let '(groupMap, groupLabels) := maps in
  let '(label, dateKey) := labelAndKey photo in
  let '(groupMap, groupLabels) :=
    if negb (JSMap.has dateKey groupMap)
    then (JSMap.set dateKey [] groupMap, JSMap.set dateKey label groupLabels)
    else (groupMap, groupLabels) in
  (JSMap.mutate dateKey (fun arr => arr ++ [photo]) groupMap, groupLabels).

Definition groupedPhotos (filtered : list Photo) : list Group.t :=
  let '(groupMap, groupLabels) :=
    fold_left groupStep filtered (JSMap.empty, JSMap.empty) in
  map (fun '(dateKey, photos) =>
         {| Group.label := default "undefined" (JSMap.get dateKey groupLabels);
            Group.dateKey := dateKey;
            Group.photos := photos |})
      groupMap.

End Grouping.

(** ** The writable stores and the commands *)

(** What an awaited [invoke] settles to. *)
Inductive Settled (A : Type) : Type :=
| Resolved (value : A)
| Rejected (reason : string).
Arguments Resolved {A} value.
Arguments Rejected {A} reason.

Record Store := {
  photos : list Photo;
  selectedPhoto : option Photo;
  hasMorePhotos : bool;
  isLoadingMore : bool;
  totalPhotoCount : Z;
  sourceDirectories : list SourceDirectory;
  selectedPhotoIds : gset Z;
  isMultiSelectMode : bool
}.

Definition initialStore : Store := {|
  photos := [];
  selectedPhoto := None;
  hasMorePhotos := true;
  isLoadingMore := false;
  totalPhotoCount := 0;
  sourceDirectories := [];
  selectedPhotoIds := ∅;
  isMultiSelectMode := false
|}.

(** [store.set(v)], one per writable store. *)
Definition set_photos (v : list Photo) (st : Store) : Store :=
  {| photos := v; selectedPhoto := selectedPhoto st; hasMorePhotos := hasMorePhotos st;
     isLoadingMore := isLoadingMore st; totalPhotoCount := totalPhotoCount st;
     sourceDirectories := sourceDirectories st; selectedPhotoIds := selectedPhotoIds st;
     isMultiSelectMode := isMultiSelectMode st |}.

Definition set_selectedPhoto (v : option Photo) (st : Store) : Store :=
  {| photos := photos st; selectedPhoto := v; hasMorePhotos := hasMorePhotos st;
     isLoadingMore := isLoadingMore st; totalPhotoCount := totalPhotoCount st;
     sourceDirectories := sourceDirectories st; selectedPhotoIds := selectedPhotoIds st;
     isMultiSelectMode := isMultiSelectMode st |}.

Definition set_hasMorePhotos (v : bool) (st : Store) : Store :=
  {| photos := photos st; selectedPhoto := selectedPhoto st; hasMorePhotos := v;
     isLoadingMore := isLoadingMore st; totalPhotoCount := totalPhotoCount st;
     sourceDirectories := sourceDirectories st; selectedPhotoIds := selectedPhotoIds st;
     isMultiSelectMode := isMultiSelectMode st |}.

Definition set_isLoadingMore (v : bool) (st : Store) : Store :=
  {| photos := photos st; selectedPhoto := selectedPhoto st;
     hasMorePhotos := hasMorePhotos st; isLoadingMore := v;
     totalPhotoCount := totalPhotoCount st; sourceDirectories := sourceDirectories st;
     selectedPhotoIds := selectedPhotoIds st; isMultiSelectMode := isMultiSelectMode st |}.

Definition set_totalPhotoCount (v : Z) (st : Store) : Store :=
  {| photos := photos st; selectedPhoto := selectedPhoto st;
     hasMorePhotos := hasMorePhotos st; isLoadingMore := isLoadingMore st;
     totalPhotoCount := v; sourceDirectories := sourceDirectories st;
     selectedPhotoIds := selectedPhotoIds st; isMultiSelectMode := isMultiSelectMode st |}.

Definition set_sourceDirectories (v : list SourceDirectory) (st : Store) : Store :=
  {| photos := photos st; selectedPhoto := selectedPhoto st;
     hasMorePhotos := hasMorePhotos st; isLoadingMore := isLoadingMore st;
     totalPhotoCount := totalPhotoCount st; sourceDirectories := v;
     selectedPhotoIds := selectedPhotoIds st; isMultiSelectMode := isMultiSelectMode st |}.

Definition set_selectedPhotoIds (v : gset Z) (st : Store) : Store :=
  {| photos := photos st; selectedPhoto := selectedPhoto st;
     hasMorePhotos := hasMorePhotos st; isLoadingMore := isLoadingMore st;
     totalPhotoCount := totalPhotoCount st; sourceDirectories := sourceDirectories st;
     selectedPhotoIds := v; isMultiSelectMode := isMultiSelectMode st |}.

Definition set_isMultiSelectMode (v : bool) (st : Store) : Store :=
  {| photos := photos st; selectedPhoto := selectedPhoto st;
     hasMorePhotos := hasMorePhotos st; isLoadingMore := isLoadingMore st;
     totalPhotoCount := totalPhotoCount st; sourceDirectories := sourceDirectories st;
     selectedPhotoIds := selectedPhotoIds st; isMultiSelectMode := v |}.

(** [x || []] on an array that may be [null]. *)
Definition orEmpty {A} (x : option (list A)) : list A := default [] x.

(** *** Pagination *)

(** The three awaited calls of [loadAllPhotos] settle to [firstPage], [count]
    and [libs]; a failure of the first one skips the rest and is logged, a
    failure of either of the others is swallowed by its own [try]. *)
Definition loadAllPhotos (firstPage : Settled (option (list Photo))) (count : Settled Z)
    (libs : Settled (option (list SourceDirectory))) (st : Store) : Store :=
  match firstPage with
  | Rejected _ => st
  | Resolved firstPage =>
      let st := set_photos (orEmpty firstPage) st in
      let st := set_hasMorePhotos (PAGE_SIZE <=? arrayLength (orEmpty firstPage)) st in
      let st := match count with
                | Resolved count => set_totalPhotoCount count st
                | Rejected _ => st
                end in
      match libs with
      | Resolved (Some libs) => set_sourceDirectories libs st
      | _ => st
      end
  end.

(** The updater handed to [photos.update] by [loadMorePhotos]. *)
Definition appendPage (nextPage : list Photo) (lst : list Photo) : list Photo :=
  let combined := lst ++ nextPage in
  if MAX_PHOTOS_IN_MEMORY <? arrayLength combined
  then
    let evicted :=
      JS.slice (Z.to_nat (arrayLength combined - MAX_PHOTOS_IN_MEMORY)) combined in
    evicted
  else combined.

(** [loadMorePhotos] after its [await]: the [try] body on the settled page,
    the [catch] that only logs, and the [finally]. *)
Definition loadMorePhotos_settled (nextPage : Settled (option (list Photo)))
    (st : Store) : Store :=
  let st :=
    match nextPage with
    | Resolved None => set_hasMorePhotos false st
    | Resolved (Some nextPage) =>
        if arrayLength nextPage =? 0
        then set_hasMorePhotos false st
        else
          let st := set_photos (appendPage nextPage (photos st)) st in
          set_hasMorePhotos (PAGE_SIZE <=? arrayLength nextPage) st
    | Rejected _ => st
    end in
  set_isLoadingMore false st.

(** [get_all_photos] is the backend's answer to [{ limit, offset }] at the
    time of the call. *)
Definition loadMorePhotos (get_all_photos : Z -> Z -> Settled (option (list Photo)))
    (st : Store) : Store :=
  if isLoadingMore st || negb (hasMorePhotos st) then st
  else
    let st := set_isLoadingMore true st in
    let currentCount := arrayLength (photos st) in
    let nextPage := get_all_photos PAGE_SIZE currentCount in
    loadMorePhotos_settled nextPage st.

(** *** Favorites, trash, rename *)

Definition toggleFavorite (toggle_favorite : Settled bool) (photoId : Z) (st : Store)
    : Store * bool :=
  match toggle_favorite with
  | Resolved isFav =>
      let st := set_photos (map (fun p => if id p =? photoId then withFavorite p isFav else p)
                                (photos st)) st in
      let st := set_selectedPhoto
                  (match selectedPhoto st with
                   | Some p => if id p =? photoId then Some (withFavorite p isFav) else Some p
                   | None => None
                   end) st in
      (st, isFav)
  | Rejected _ => (st, false)
  end.

(** The two updates [deletePhotos] and [hardDeletePhotos] share. *)
Definition removeFromStore (photoIds : list Z) (st : Store) : Store :=
  let st := set_photos (List.filter (fun p => negb (JS.arrayIncludesNum photoIds (id p)))
                                    (photos st)) st in
  set_selectedPhoto
    (match selectedPhoto st with
     | Some p => if JS.arrayIncludesNum photoIds (id p) then None else Some p
     | None => None
     end) st.

Definition deletePhotos (soft_delete_photos : Settled unit) (photoIds : list Z)
    (st : Store) : Store :=
  match soft_delete_photos with
  | Resolved _ => removeFromStore photoIds st
  | Rejected _ => st
  end.

(** *** Multi-select *)


Definition clearSelection (st : Store) : Store :=
  let st := set_selectedPhotoIds ∅ st in
  set_isMultiSelectMode false st.

Definition togglePhotoSelection (photoId : Z) (st : Store) : Store :=
  let ids := selectedPhotoIds st in
  let next := if bool_decide (photoId ∈ ids) then ids ∖ {[photoId]} else ids ∪ {[photoId]} in
  set_selectedPhotoIds next st.

(** *** File operations *)

Definition hardDeletePhotos (hard_delete_photos : Settled unit) (photoIds : list Z)
    (deleteFromDisk : bool) (st : Store) : Store :=
  match hard_delete_photos with
  | Resolved _ =>
      let st := removeFromStore photoIds st in
      clearSelection st
  | Rejected _ => st
  end.

Definition renamePhoto (rename_photo : Settled string) (photoId : Z)
    (newFilename : string) (st : Store) : Store :=
  match rename_photo with
  | Resolved newPath =>
      let st := set_photos (map (fun p => if id p =? photoId
                                          then withName p newFilename newPath else p)
                                (photos st)) st in
      set_selectedPhoto
        (match selectedPhoto st with
         | Some p => if id p =? photoId then Some (withName p newFilename newPath)
                     else Some p
         | None => None
         end) st
  | Rejected _ => st
  end.

(** ** Vocabulary of the statements *)

(** The last [n] elements of a list (all of it when it is shorter). *)
Definition lastn {A} (n : nat) (l : list A) : list A := skipn (length l - n) l.

(** A backend that answers the next request with [page], whatever the
    offset asked for. *)
Definition answering (page : list Photo) : Z -> Z -> Settled (option (list Photo)) :=
  fun _ _ => Resolved (Some page).

(** Successive [loadMorePhotos] calls, each one settled before the next
    starts, against the backend answers in [backends]. *)
Definition runLoadMore (backends : list (Z -> Z -> Settled (option (list Photo))))
    (st : Store) : Store :=
  fold_left (fun st backend => loadMorePhotos backend st) backends st.

(** The pages of a sequence of answers that reach the cache: an empty or a
    short page ends the pagination, and the calls after it fetch nothing. *)
Fixpoint appended (pages : list (list Photo)) : list (list Photo) :=
  match pages with
  | [] => []
  | page :: rest =>
      if arrayLength page =? 0 then []
      else if PAGE_SIZE <=? arrayLength page then page :: appended rest
      else [page]
  end.

Definition withMediaTypes (filters : FilterState) (types : list string) : FilterState :=
  {| selectedFolder := selectedFolder filters; selectedYear := selectedYear filters;
     selectedMonth := selectedMonth filters; selectedMediaTypes := types |}.

Definition withMonth (filters : FilterState) (month : option Z) : FilterState :=
  {| selectedFolder := selectedFolder filters; selectedYear := selectedYear filters;
     selectedMonth := month; selectedMediaTypes := selectedMediaTypes filters |}.

(** The keys of a sequence in the order of their first occurrence. *)
Fixpoint firstSeen (ks : list string) : list string :=
  match ks with
  | [] => []
  | k :: ks' => k :: List.filter (fun k' => negb (String.eqb k' k)) (firstSeen ks')
  end.

(** The key the grouping gives a photo. *)
Definition dateKeyOf (h : JS.Host) (now : Z) (photo : Photo) : string :=
  snd (labelAndKey h now photo).

(** The photos of key [k] among [l], in the order of [l]. *)
Definition bucket (h : JS.Host) (now : Z) (l : list Photo) (k : string) : list Photo :=
  List.filter (fun p => String.eqb (dateKeyOf h now p) k) l.

(** The group map the loop of [groupedPhotos] has built after the photos
    [l]: one entry per key, in first-occurrence order, holding its bucket. *)
Definition tabulated (h : JS.Host) (now : Z) (l : list Photo) : JSMap.t (list Photo) :=
  map (fun k => (k, bucket h now l k)) (firstSeen (map (dateKeyOf h now) l)).

(** ** Sample data *)

Definition samplePhoto (i : Z) (name : string) (taken : option string)
    (modified : string) (kind : string) : Photo :=
  {| id := i; path := "/library/" +:+ name; filename := name; folderRel := "";
     width := None; height := None; takenAt := taken; modifiedAt := modified;
     sizeBytes := 1024; mediaType := kind; source := "library"; isFavorite := false;
     isDeleted := false; deletedAt := None; cameraMake := None; cameraModel := None;
     lens := None; iso := None; shutterSpeed := None; aperture := None;
     focalLength := None; gpsLat := None; gpsLon := None |}.

(** The record the backend returns at position [i] of its listing. *)
Definition fetched (i : Z) : Photo :=
  samplePhoto i ("img" +:+ pretty i +:+ ".jpg") None "2024-03-15T12:00:00Z" "photo".

(** Page [k] of the listing: positions [100 k] to [100 k + 99]. *)
Definition fetchedPage (k : Z) : list Photo := map fetched (seqZ (100 * k) 100).

Definition scenarioD_pages : list (list Photo) := map fetchedPage (seqZ 0 25).

Definition sampleStore : Store :=
  set_selectedPhoto (Some (fetched 7))
    (set_selectedPhotoIds {[ 3; 7 ]}
       (set_isMultiSelectMode true
          (set_photos (fetchedPage 0) initialStore))).

(** Filter states: only photos; everything; January 2024; and a state whose
    year is the number [0]. *)
Definition photosOnly : FilterState :=
  {| selectedFolder := None; selectedYear := None; selectedMonth := None;
     selectedMediaTypes := ["photo"] |}.

Definition allMedia : FilterState :=
  {| selectedFolder := None; selectedYear := None; selectedMonth := None;
     selectedMediaTypes := ["photo"; "video"] |}.

Definition january2024 : FilterState :=
  {| selectedFolder := None; selectedYear := Some 2024; selectedMonth := Some 0;
     selectedMediaTypes := ["photo"; "video"] |}.

Definition yearZeroJanuary : FilterState :=
  {| selectedFolder := None; selectedYear := Some 0; selectedMonth := Some 0;
     selectedMediaTypes := ["photo"; "video"] |}.

(** Noon of 15 March 2024, UTC, a Friday. *)
Definition noon15March2024 : Z := 1710504000000.

(** Noon of 15 April 2024, UTC: 31 days after [noon15March2024]. *)
Definition noon15April2024 : Z := 1713182400000.

(** A photo taken in January 2024, a video of the same month, a photo taken
    in December 2023 and modified in January 2024, a photo of March 2024. *)
Definition holidayPhoto : Photo :=
  samplePhoto 1 "beach.jpg" (Some "2024-01-20T09:30:00Z") "2024-02-01T08:00:00Z" "photo".

Definition holidayVideo : Photo :=
  samplePhoto 2 "surf.mp4" None "2024-01-21T16:45:00Z" "video".

Definition lastYearPhoto : Photo :=
  samplePhoto 3 "snow.jpg" (Some "2023-12-24T18:00:00Z") "2024-01-02T10:00:00Z" "photo".

Definition marchPhoto : Photo :=
  samplePhoto 4 "tulips.jpg" None "2024-03-10T07:15:00Z" "photo".

(** Records dated exactly 30 days before [noon15March2024], one second
    earlier, and one day after it. *)
Definition boundaryPhoto : Photo :=
  samplePhoto 5 "boundary.jpg" None "2024-02-14T12:00:00Z" "photo".

Definition stalePhoto : Photo :=
  samplePhoto 6 "stale.jpg" None "2024-02-14T11:59:59Z" "photo".

Definition tomorrowPhoto : Photo :=
  samplePhoto 7 "tomorrow.jpg" (Some "2024-03-16T12:00:00Z") "2024-03-01T12:00:00Z" "photo".

(** ** More of the store and its callers *)

(** [selectAllPhotos]; [all] is the value [get(filteredPhotos)] returns. *)
Definition selectAllPhotos (all : list Photo) (st : Store) : Store :=
  set_selectedPhotoIds (list_to_set (map id all)) st.





(** Modelled from the spec: the repository call behind [get_all_photos], not
    among the sources; the spec's [fetchPage(limit, offset)] over a fixed
    listing [records] returns the [limit] records from position [offset] on,
    fewer only at the end of the listing. *)
Definition listingBackend (records : list Photo)
    : Z -> Z -> Settled (option (list Photo)) :=
  fun limit offset =>
    Resolved (Some (firstn (Z.to_nat limit) (skipn (Z.to_nat offset) records))).

(** The store after [loadAllPhotos] and [n] calls of [loadMorePhotos], all
    served from the listing [records]. *)
Definition paged (records : list Photo) (count : Settled Z)
    (libs : Settled (option (list SourceDirectory))) (st : Store) (n : nat) : Store :=
  runLoadMore (repeat (listingBackend records) n)
              (loadAllPhotos (listingBackend records PAGE_SIZE 0) count libs st).

(** *** Category stores *)

(** A JavaScript [Set]: [add] of a present element changes nothing, and
    iteration follows insertion order. *)
Module JSSet.
Section JSSet.
Context {A : Type} (same : A -> A -> bool).

Definition has (x : A) (s : list A) : bool := existsb (same x) s.

Definition add (x : A) (s : list A) : list A := if has x s then s else s ++ [x].

(** [new Set(arr)]. *)
Definition ofArray (arr : list A) : list A := fold_left (fun s x => add x s) arr [].

End JSSet.
End JSSet.

(** Set membership compares numbers with SameValueZero: NaN is NaN. *)
Definition sameNumber (x y : option Z) : bool :=
  match x, y with
  | Some a, Some b => a =? b
  | None, None => true
  | _, _ => false
  end.

(** The [years] store: the distinct years of the cache, latest first. *)
Definition years (h : JS.Host) (photos : list Photo) : list (option Z) :=
  let yearsSet :=
    fold_left (fun yearsSet p =>
                 let year := yearOf h p in
                 JSSet.add sameNumber year yearsSet) photos [] in
  JS.sort (fun a b => JS.subNum b a) yearsSet.

(** [arr.sort()] without a comparator orders strings by their code units;
    here strings are byte strings and the order is the bytewise one, the
    same order on ASCII. *)
Definition defaultCompare (a b : string) : option Z := Some (JS.ordinalCompare a b).

(** The [folders] store. *)
Definition folders (photos : list Photo) : list string :=
  let foldersSet :=
    fold_left (fun foldersSet p =>
                 if JS.truthyString (folderRel p)
                 then JSSet.add String.eqb (folderRel p) foldersSet
                 else foldersSet) photos [] in
  JS.sort defaultCompare foldersSet.

(** The [months] store. *)
Definition months (h : JS.Host) (photos : list Photo) (filters : FilterState)
    : list (option Z) :=
  if negb (JS.truthyNullableNumber (selectedYear filters)) then []
  else
    let monthsSet :=
      fold_left (fun monthsSet p =>
                   let date := JS.newDate h (effectiveDate p) in
                   if JS.strictEq (JS.getFullYear h date) (selectedYear filters)
                   then JSSet.add sameNumber (JS.getMonth h date) monthsSet
                   else monthsSet) photos [] in
    JS.sort (fun a b => JS.subNum a b) monthsSet.

(** The derived counts ([photoCount] is also a field of [SourceDirectory]). *)
Module Counts.
Definition photoCount (photos : list Photo) : Z := arrayLength photos.

Definition filteredCount (filtered : list Photo) : Z := arrayLength filtered.

Definition favoritesCount (photos : list Photo) : Z :=
  arrayLength (List.filter (fun p => isFavorite p) photos).

Definition trashCount (photos : list Photo) : Z :=
  arrayLength (List.filter (fun p => isDeleted p) photos).
End Counts.

(** *** Settings *)

Module Theme.
Inductive t := light | dark.
End Theme.

Module LayoutMode.
Inductive t := compact | default | expressive.
End LayoutMode.

Module AccentColor.
Inductive t := blue | purple | pink | red | orange | green | teal | indigo.
End AccentColor.

Module ColorPalette.
Inductive t := default | lavender | mauve | sage | coral | ocean.
End ColorPalette.

Record AppSettings := {
  theme : Theme.t;
  layoutMode : LayoutMode.t;
  filmstripScrollEnabled : bool;
  gridZoom : Z;
  showSidebar : bool;
  accentColor : AccentColor.t;
  colorPalette : ColorPalette.t;
  hiddenFolders : list string;
  pinnedFolders : list string;
  maxVisibleFolders : Z
}.

Definition defaultSettings : AppSettings := {|
  theme := Theme.light;
  layoutMode := LayoutMode.default;
  filmstripScrollEnabled := true;
  gridZoom := 3;
  showSidebar := true;
  accentColor := AccentColor.blue;
  colorPalette := ColorPalette.default;
  hiddenFolders := [];
  pinnedFolders := [];
  maxVisibleFolders := 8
|}.

(** [arr.slice(0, end)]: a negative [end] counts from the end of the array. *)
Definition sliceFromStart {A} (end_ : Z) (arr : list A) : list A :=
  let len := arrayLength arr in
  let final := if end_ <? 0 then Z.max (len + end_) 0 else Z.min end_ len in
  firstn (Z.to_nat final) arr.

(** The comparator of [visibleFolders]: pinned first, then by locale. *)
Definition pinnedFirst (h : JS.Host) (pinned : list string) (a b : string) : option Z :=
  let aPinned := if JSSet.has String.eqb a pinned then 0 else 1 in
  let bPinned := if JSSet.has String.eqb b pinned then 0 else 1 in
  if negb (aPinned =? bPinned) then Some (aPinned - bPinned)
  else Some (JS.localeCompare h a b).

(** The [visibleFolders] store, on the values of [folders] and
    [appSettings]. *)
Definition visibleFolders (h : JS.Host) (folders : list string) (settings : AppSettings)
    : list string :=
  let hidden := JSSet.ofArray String.eqb (hiddenFolders settings) in
  let pinned := JSSet.ofArray String.eqb (pinnedFolders settings) in
  let visible := List.filter (fun f => negb (JSSet.has String.eqb f hidden)) folders in
  let visible := JS.sort (pinnedFirst h pinned) visible in
  sliceFromStart (maxVisibleFolders settings) visible.

(** Settings with a hidden folder, two pinned folders and room for three. *)
Definition tidySettings : AppSettings :=
  {| theme := Theme.light; layoutMode := LayoutMode.default;
     filmstripScrollEnabled := true; gridZoom := 3; showSidebar := true;
     accentColor := AccentColor.blue; colorPalette := ColorPalette.default;
     hiddenFolders := ["tmp"]; pinnedFolders := ["trips"; "family"];
     maxVisibleFolders := 3 |}.

(** *** Settings changes *)

(** A [Partial<AppSettings>]: the properties an update names. *)
Record PartialSettings := {
  new_theme : option Theme.t;
  new_layoutMode : option LayoutMode.t;
  new_filmstripScrollEnabled : option bool;
  new_gridZoom : option Z;
  new_showSidebar : option bool;
  new_accentColor : option AccentColor.t;
  new_colorPalette : option ColorPalette.t;
  new_hiddenFolders : option (list string);
  new_pinnedFolders : option (list string);
  new_maxVisibleFolders : option Z
}.

(** The empty object [{}]. *)
Definition noChange : PartialSettings :=
  {| new_theme := None; new_layoutMode := None; new_filmstripScrollEnabled := None;
     new_gridZoom := None; new_showSidebar := None; new_accentColor := None;
     new_colorPalette := None; new_hiddenFolders := None; new_pinnedFolders := None;
     new_maxVisibleFolders := None |}.

(** [updateSettings(partial)]: [{ ...s, ...partial }]. *)
Definition updateSettings (partial : PartialSettings) (s : AppSettings) : AppSettings :=
  {| theme := default (theme s) (new_theme partial);
     layoutMode := default (layoutMode s) (new_layoutMode partial);
     filmstripScrollEnabled :=
       default (filmstripScrollEnabled s) (new_filmstripScrollEnabled partial);
     gridZoom := default (gridZoom s) (new_gridZoom partial);
     showSidebar := default (showSidebar s) (new_showSidebar partial);
     accentColor := default (accentColor s) (new_accentColor partial);
     colorPalette := default (colorPalette s) (new_colorPalette partial);
     hiddenFolders := default (hiddenFolders s) (new_hiddenFolders partial);
     pinnedFolders := default (pinnedFolders s) (new_pinnedFolders partial);
     maxVisibleFolders := default (maxVisibleFolders s) (new_maxVisibleFolders partial) |}.

Definition toggleTheme (s : AppSettings) : AppSettings :=
  {| theme := match theme s with Theme.light => Theme.dark | Theme.dark => Theme.light end;
     layoutMode := layoutMode s; filmstripScrollEnabled := filmstripScrollEnabled s;
     gridZoom := gridZoom s; showSidebar := showSidebar s; accentColor := accentColor s;
     colorPalette := colorPalette s; hiddenFolders := hiddenFolders s;
     pinnedFolders := pinnedFolders s; maxVisibleFolders := maxVisibleFolders s |}.




(** [arr.indexOf(x)] on strings: the first position of [x], or [-1]. *)
Fixpoint indexOfFrom (x : string) (arr : list string) (i : Z) : Z :=
  match arr with
  | [] => -1
  | y :: arr' => if String.eqb y x then i else indexOfFrom x arr' (i + 1)
  end.

Definition indexOf (x : string) (arr : list string) : Z := indexOfFrom x arr 0.

(** [arr.splice(idx, 1)] for [0 <= idx]: the array without the element at
    [idx]. *)
Definition spliceOne {A} (idx : Z) (arr : list A) : list A :=
  firstn (Z.to_nat idx) arr ++ skipn (S (Z.to_nat idx)) arr.

(** The body shared by [toggleFolderHidden] and [toggleFolderPinned] of the
    settings panel, on a copy of the list. *)
Definition toggleFolder (folder : string) (list_ : list string) : list string :=
  let idx := indexOf folder list_ in
  if 0 <=? idx then spliceOne idx list_ else list_ ++ [folder].

Definition toggleFolderHidden (folder : string) (s : AppSettings) : AppSettings :=
  let hidden := toggleFolder folder (hiddenFolders s) in
  updateSettings
    {| new_theme := None; new_layoutMode := None; new_filmstripScrollEnabled := None;
       new_gridZoom := None; new_showSidebar := None; new_accentColor := None;
       new_colorPalette := None; new_hiddenFolders := Some hidden;
       new_pinnedFolders := None; new_maxVisibleFolders := None |} s.

Definition toggleFolderPinned (folder : string) (s : AppSettings) : AppSettings :=
  let pinned := toggleFolder folder (pinnedFolders s) in
  updateSettings
    {| new_theme := None; new_layoutMode := None; new_filmstripScrollEnabled := None;
       new_gridZoom := None; new_showSidebar := None; new_accentColor := None;
       new_colorPalette := None; new_hiddenFolders := None;
       new_pinnedFolders := Some pinned; new_maxVisibleFolders := None |} s.

Definition isFolderHidden (folder : string) (s : AppSettings) : bool :=
  JS.arrayIncludes (hiddenFolders s) folder.

Definition isFolderPinned (folder : string) (s : AppSettings) : bool :=
  JS.arrayIncludes (pinnedFolders s) folder.

(** A list without the first occurrence of [x]. *)
Fixpoint removeFirst (x : string) (l : list string) : list string :=
  match l with
  | [] => []
  | y :: l' => if String.eqb y x then l' else y :: removeFirst x l'
  end.


(** *** The detail view *)

(** [arr.findIndex(pred)]: the first position that satisfies [pred], or
    [-1]. *)
Fixpoint findIndexFrom {A} (pred : A -> bool) (arr : list A) (i : Z) : Z :=
  match arr with
  | [] => -1
  | x :: arr' => if pred x then i else findIndexFrom pred arr' (i + 1)
  end.

Definition findIndex {A} (pred : A -> bool) (arr : list A) : Z := findIndexFrom pred arr 0.

(** [arr[i]]: [None] is the [undefined] of a position outside the array. *)
Definition at_ {A} (arr : list A) (i : Z) : option A :=
  if i <? 0 then None else nth_error arr (Z.to_nat i).

(** [arr.slice(start, end)] for [0 <= start] and [0 <= end]. *)
Definition sliceRange {A} (start end_ : Z) (arr : list A) : list A :=
  firstn (Z.to_nat (end_ - start)) (skipn (Z.to_nat start) arr).

(** [arr.map((photo, i) => ({ photo, idx: start + i }))]. *)
Fixpoint withIndex (start : Z) (arr : list Photo) : list (Photo * Z) :=
  match arr with
  | [] => []
  | photo :: arr' => (photo, start) :: withIndex (start + 1) arr'
  end.

(** The reactive [currentIndex]. *)
Definition currentIndex (selected : option Photo) (filtered : list Photo) : Z :=
  match selected with
  | Some sel => findIndex (fun p => id p =? id sel) filtered
  | None => -1
  end.

(** [getFilmstripPhotos]; the two detail views differ in [halfWindow] and
    in the number of items they aim for. *)
Definition getFilmstripPhotosOf (halfWindow items : Z) (index : Z) (photos : list Photo)
    : list (Photo * Z) :=
  if (index <? 0) || (arrayLength photos =? 0) then []
  else
    let start := Z.max 0 (index - halfWindow) in
    let end_ := Z.min (arrayLength photos) (index + halfWindow + 1) in
    let '(start, end_) :=
      if end_ - start <? items
      then if start =? 0 then (start, Z.min (arrayLength photos) items)
           else (Z.max 0 (end_ - items), end_)
      else (start, end_) in
    withIndex start (sliceRange start end_ photos).

(** The view with [halfWindow = 3] that shows about 7 items, and the one
    with [halfWindow = 4] that shows about 9. *)
Definition getFilmstripPhotos (index : Z) (photos : list Photo) : list (Photo * Z) :=
  getFilmstripPhotosOf 3 7 index photos.

Definition getFilmstripPhotosWide (index : Z) (photos : list Photo) : list (Photo * Z) :=
  getFilmstripPhotosOf 4 9 index photos.

Module Direction.
Inductive t := prev | next.
End Direction.

(** [navigate] of the detail view; [filtered] is the value of
    [filteredPhotos]. *)
Definition navigate (direction : Direction.t) (filtered : list Photo) (st : Store)
    : Store :=
  let currentIndex := currentIndex (selectedPhoto st) filtered in
  if currentIndex <? 0 then st
  else
    let newIndex :=
      match direction with
      | Direction.prev => Z.max 0 (currentIndex - 1)
      | Direction.next => Z.min (arrayLength filtered - 1) (currentIndex + 1)
      end in
    if negb (newIndex =? currentIndex)
    then set_selectedPhoto (at_ filtered newIndex) st
    else st.

Definition goToPhoto (idx : Z) (filtered : list Photo) (st : Store) : Store :=
  if (0 <=? idx) && (idx <? arrayLength filtered)
  then set_selectedPhoto (at_ filtered idx) st
  else st.

(** *** Invariants of the commands *)


(** Every cached record is among the first 2100 of the listing, and the
    cache fits the cap. *)
Definition withinWindow (records : list Photo) (st : Store) : Prop :=
  (length (photos st) <= 2000)%nat
  /\ forall p, In p (photos st) -> In p (firstn 2100 records).

(** *** Tags and albums *)

Module Tag.
Record t := { id : Z; name : string; color : string }.
End Tag.

Module Album.
Record t := {
  id : Z;
  name : string;
  createdAt : string;
  photoCount : Z;
  coverPath : option string
}.
Definition withName (a : t) (newName : string) : t :=
  {| id := id a; name := newName; createdAt := createdAt a;
     photoCount := photoCount a; coverPath := coverPath a |}.
End Album.

(** The commands act on the value of the [tags] store and of the [albums]
    store; the answer of the backend command is an argument, and the value a
    command returns comes second. *)
Definition loadTags (get_tags : Settled (option (list Tag.t))) (tags : list Tag.t)
    : list Tag.t :=
  match get_tags with
  | Resolved result => default [] result
  | Rejected _ => tags
  end.

Definition createTag (create_tag : Settled Tag.t) (name color : string)
    (tags : list Tag.t) : list Tag.t * option Tag.t :=
  match create_tag with
  | Resolved tag => (tags ++ [tag], Some tag)
  | Rejected _ => (tags, None)
  end.

Definition deleteTag (delete_tag : Settled unit) (tagId : Z) (tags : list Tag.t)
    : list Tag.t :=
  match delete_tag with
  | Resolved _ => List.filter (fun t => negb (Tag.id t =? tagId)) tags
  | Rejected _ => tags
  end.

Definition loadAlbums (get_albums : Settled (option (list Album.t)))
    (albums : list Album.t) : list Album.t :=
  match get_albums with
  | Resolved result => default [] result
  | Rejected _ => albums
  end.

Definition createAlbum (create_album : Settled Album.t) (name : string)
    (albums : list Album.t) : list Album.t * option Album.t :=
  match create_album with
  | Resolved album => (album :: albums, Some album)
  | Rejected _ => (albums, None)
  end.

Definition deleteAlbum (delete_album : Settled unit) (albumId : Z)
    (albums : list Album.t) : list Album.t :=
  match delete_album with
  | Resolved _ => List.filter (fun a => negb (Album.id a =? albumId)) albums
  | Rejected _ => albums
  end.

Definition renameAlbum (rename_album : Settled unit) (albumId : Z) (newName : string)
    (albums : list Album.t) : list Album.t :=
  match rename_album with
  | Resolved _ =>
      map (fun a => if Album.id a =? albumId then Album.withName a newName else a) albums
  | Rejected _ => albums
  end.

(** *** Vocabulary of the grouping statements *)

(** The label the grouping computes for a photo. *)
Definition labelOf (h : JS.Host) (now : Z) (photo : Photo) : string :=
  fst (labelAndKey h now photo).

(** The label of the first photo of key [k] among [l]. *)
Definition firstLabel (h : JS.Host) (now : Z) (l : list Photo) (k : string) : string :=
  match bucket h now l k with
  | photo :: _ => labelOf h now photo
  | [] => "undefined"
  end.

(** The label map the loop of [groupedPhotos] has built after the photos
    [l]. *)
Definition labelled (h : JS.Host) (now : Z) (l : list Photo) : JSMap.t string :=
  map (fun k => (k, firstLabel h now l k)) (firstSeen (map (dateKeyOf h now) l)).

Definition sampleTag (i : Z) (n : string) : Tag.t :=
  {| Tag.id := i; Tag.name := n; Tag.color := "#0071e3" |}.

Definition sampleAlbum (i : Z) (n : string) : Album.t :=
  {| Album.id := i; Album.name := n; Album.createdAt := "2024-03-15T12:00:00Z";
     Album.photoCount := 0; Album.coverPath := None |}.

(** * Properties *)

Example isoParse_epoch : JS.isoParse "1970-01-01T00:00:00Z" = Some 0.
Proof. reflexivity. Qed.

Example isoParse_2024 : JS.isoParse "2024-03-15T12:30:00.250Z" = Some 1710505800250.
Proof. vm_compute. reflexivity. Qed.

Example civil_2024 : JS.civilFromDays (JS.Day 1710505800250) = (2024, 3, 15).
Proof. vm_compute. reflexivity. Qed.

Example weekday_2024 : JS.WeekDay 1710505800250 = 5.
Proof. vm_compute. reflexivity. Qed.

Example sample_clocks :
  JS.isoParse "2024-03-15T12:00:00Z" = Some noon15March2024
  /\ JS.isoParse "2024-04-15T12:00:00Z" = Some noon15April2024.
Proof. split; vm_compute; reflexivity. Qed.

(** ** The cache under pagination *)

Lemma length_lastn {A} (n : nat) (l : list A) : (length (lastn n l) <= n)%nat.
Proof. unfold lastn. rewrite length_skipn. lia. Qed.

Lemma lastn_all {A} (n : nat) (l : list A) : (length l <= n)%nat -> lastn n l = l.
Proof.
  intros Hle. unfold lastn.
  replace (length l - n)%nat with 0%nat by lia. reflexivity.
Qed.

Lemma skipn_app_within {A} (j : nat) (a b : list A) :
  (j <= length a)%nat -> skipn j (a ++ b) = skipn j a ++ b.
Proof.
  intros Hj. rewrite skipn_app.
  replace (j - length a)%nat with 0%nat by lia. reflexivity.
Qed.

Lemma lastn_app_lastn {A} (n : nat) (a b : list A) :
  lastn n (lastn n a ++ b) = lastn n (a ++ b).
Proof.
  unfold lastn. rewrite !length_app, length_skipn.
  rewrite <- (skipn_app_within (length a - n) a b) by lia.
  rewrite skipn_skipn. f_equal. lia.
Qed.

Lemma appendPage_lastn (nextPage lst : list Photo) :
  appendPage nextPage lst = lastn (Z.to_nat MAX_PHOTOS_IN_MEMORY) (lst ++ nextPage).
Proof.
  unfold appendPage, JS.slice, lastn, arrayLength, MAX_PHOTOS_IN_MEMORY.
  destruct (Z.ltb_spec 2000 (Z.of_nat (length (lst ++ nextPage)))) as [Hlt | Hge].
  - f_equal. lia.
  - replace (length (lst ++ nextPage) - Z.to_nat 2000)%nat with 0%nat by lia.
    reflexivity.
Qed.

Lemma appendPage_length (nextPage lst : list Photo) :
  arrayLength (appendPage nextPage lst) <= MAX_PHOTOS_IN_MEMORY.
Proof.
  rewrite appendPage_lastn. unfold arrayLength.
  pose proof (length_lastn (Z.to_nat MAX_PHOTOS_IN_MEMORY) (lst ++ nextPage)).
  unfold MAX_PHOTOS_IN_MEMORY in *. lia.
Qed.

Lemma loadMorePhotos_closed (backend : Z -> Z -> Settled (option (list Photo)))
    (st : Store) :
  isLoadingMore st || negb (hasMorePhotos st) = true -> loadMorePhotos backend st = st.
Proof. intros Hguard. unfold loadMorePhotos. rewrite Hguard. reflexivity. Qed.

Lemma runLoadMore_exhausted (backends : list (Z -> Z -> Settled (option (list Photo))))
    (st : Store) :
  hasMorePhotos st = false -> runLoadMore backends st = st.
Proof.
  intros Hno. induction backends as [| backend backends IH]; [reflexivity |].
  unfold runLoadMore in *. simpl.
  rewrite loadMorePhotos_closed; [exact IH |].
  rewrite Hno. apply orb_true_r.
Qed.

Lemma loadMorePhotos_bounded (backend : Z -> Z -> Settled (option (list Photo)))
    (st : Store) :
  arrayLength (photos st) <= MAX_PHOTOS_IN_MEMORY ->
  arrayLength (photos (loadMorePhotos backend st)) <= MAX_PHOTOS_IN_MEMORY.
Proof.
  intros Hle. unfold loadMorePhotos.
  destruct (isLoadingMore st || negb (hasMorePhotos st)); [exact Hle |].
  unfold loadMorePhotos_settled.
  destruct (backend PAGE_SIZE _) as [[nextPage |] | reason]; simpl; try exact Hle.
  destruct (arrayLength nextPage =? 0); simpl; [exact Hle |].
  apply appendPage_length.
Qed.

(** What one call does to an idle store with more to load when the backend
    answers with a non-empty page. *)
Lemma loadMorePhotos_answering (page : list Photo) (st : Store) :
  isLoadingMore st = false -> hasMorePhotos st = true -> arrayLength page <> 0 ->
  let st' := loadMorePhotos (answering page) st in
  photos st' = appendPage page (photos st)
  /\ hasMorePhotos st' = (PAGE_SIZE <=? arrayLength page)
  /\ isLoadingMore st' = false.
Proof.
  intros Hidle Hmore Hne. unfold loadMorePhotos, answering, loadMorePhotos_settled.
  rewrite Hidle, Hmore. simpl.
  destruct (Z.eqb_spec (arrayLength page) 0) as [H0 | _]; [contradiction |].
  simpl. auto.
Qed.

Lemma loadMorePhotos_answering_empty (page : list Photo) (st : Store) :
  isLoadingMore st = false -> hasMorePhotos st = true -> arrayLength page = 0 ->
  let st' := loadMorePhotos (answering page) st in
  photos st' = photos st /\ hasMorePhotos st' = false.
Proof.
  intros Hidle Hmore H0. unfold loadMorePhotos, answering, loadMorePhotos_settled.
  rewrite Hidle, Hmore. simpl. rewrite H0. simpl. auto.
Qed.

Lemma runLoadMore_cons backend backends st :
  runLoadMore (backend :: backends) st = runLoadMore backends (loadMorePhotos backend st).
Proof. reflexivity. Qed.

Lemma runLoadMore_answering (pages : list (list Photo)) (st : Store) :
  isLoadingMore st = false -> hasMorePhotos st = true ->
  arrayLength (photos st) <= MAX_PHOTOS_IN_MEMORY ->
  photos (runLoadMore (map answering pages) st)
  = lastn (Z.to_nat MAX_PHOTOS_IN_MEMORY) (photos st ++ concat (appended pages)).
Proof.
  revert st. induction pages as [| page pages IH]; intros st Hidle Hmore Hle.
  - simpl. rewrite app_nil_r, lastn_all; [reflexivity |].
    unfold arrayLength in Hle. lia.
  - rewrite map_cons, runLoadMore_cons. cbn [appended].
    destruct (Z.eqb_spec (arrayLength page) 0) as [H0 | Hne].
    + destruct (loadMorePhotos_answering_empty page st Hidle Hmore H0) as [Hp Hm].
      rewrite runLoadMore_exhausted by exact Hm.
      rewrite Hp. simpl. rewrite app_nil_r, lastn_all; [reflexivity |].
      unfold arrayLength in Hle. lia.
    + destruct (loadMorePhotos_answering page st Hidle Hmore Hne) as (Hp & Hm & Hl).
      destruct (PAGE_SIZE <=? arrayLength page) eqn:Hfull.
      * rewrite IH; [| exact Hl | exact Hm | rewrite Hp; apply appendPage_length].
        rewrite Hp, appendPage_lastn. simpl concat.
        rewrite lastn_app_lastn, app_assoc. reflexivity.
      * rewrite runLoadMore_exhausted by exact Hm.
        rewrite Hp, appendPage_lastn. simpl. rewrite app_nil_r. reflexivity.
Qed.

Lemma appended_full (pages : list (list Photo)) :
  Forall (fun page => length page = 100%nat) pages -> appended pages = pages.
Proof.
  induction 1 as [| page pages Hlen _ IH]; [reflexivity |].
  simpl. unfold arrayLength, PAGE_SIZE. rewrite Hlen, IH. reflexivity.
Qed.

Lemma length_concat_pages (pages : list (list Photo)) :
  Forall (fun page => length page = 100%nat) pages ->
  length (concat pages) = (100 * length pages)%nat.
Proof.
  induction 1 as [| page pages Hlen _ IH]; [reflexivity |].
  simpl concat. rewrite length_app, IH, Hlen. simpl length. lia.
Qed.

(** C1. Cache eviction invariant.  The append of [loadMorePhotos] returns
    the last 2000 records of the cache followed by the page, never more than
    2000.  Whatever the backend answers, failures included, a cache of at most
    2000 records never grows past 2000 under successive [loadMorePhotos]
    calls; after the answers [pages] the cache is the last 2000 records of the
    old cache followed by the appended pages, so the earliest records go
    first; and 25 pages of 100 records loaded into the initial store leave the
    2000 records at positions 500 to 2499 of the 2500 fetched. *)
Theorem C1_cache_eviction_invariant :
  (forall nextPage lst,
      arrayLength (appendPage nextPage lst) <= MAX_PHOTOS_IN_MEMORY
      /\ appendPage nextPage lst = lastn 2000 (lst ++ nextPage))
  /\ (forall backends st,
         arrayLength (photos st) <= MAX_PHOTOS_IN_MEMORY ->
         arrayLength (photos (runLoadMore backends st)) <= MAX_PHOTOS_IN_MEMORY)
  /\ (forall pages st,
         isLoadingMore st = false -> hasMorePhotos st = true ->
         arrayLength (photos st) <= MAX_PHOTOS_IN_MEMORY ->
         photos (runLoadMore (map answering pages) st)
         = lastn 2000 (photos st ++ concat (appended pages)))
  /\ (forall pages,
         length pages = 25%nat ->
         Forall (fun page => length page = 100%nat) pages ->
         let st := runLoadMore (map answering pages) initialStore in
         arrayLength (photos st) = 2000
         /\ photos st = skipn 500 (concat pages)).
Proof.
  split; [| split; [| split]].
  - intros nextPage lst. split; [apply appendPage_length | apply appendPage_lastn].
  - intros backends. induction backends as [| backend backends IH]; intros st Hle.
    + exact Hle.
    + rewrite runLoadMore_cons. apply IH, loadMorePhotos_bounded, Hle.
  - intros pages st Hidle Hmore Hle.
    rewrite runLoadMore_answering by assumption. reflexivity.
  - intros pages Hcount Hfull st. subst st.
    rewrite runLoadMore_answering; [| reflexivity | reflexivity | vm_compute; discriminate].
    rewrite appended_full by exact Hfull. simpl photos. rewrite app_nil_l.
    pose proof (length_concat_pages pages Hfull) as Hlen. rewrite Hcount in Hlen.
    unfold lastn, arrayLength. rewrite length_skipn, Hlen.
    split; [vm_compute; reflexivity |].
    f_equal.
Qed.

Lemma C1_cache_eviction_invariant_witness :
  length scenarioD_pages = 25%nat
  /\ Forall (fun page => length page = 100%nat) scenarioD_pages
  /\ arrayLength (photos (runLoadMore (map answering scenarioD_pages) initialStore)) = 2000
  /\ map id (photos (runLoadMore (map answering scenarioD_pages) initialStore))
     = seqZ 500 2000.
Proof.
  assert (Hcount : length scenarioD_pages = 25%nat) by reflexivity.
  assert (Hfull : Forall (fun page => length page = 100%nat) scenarioD_pages)
    by (apply (bool_decide_unpack _); vm_compute; exact I).
  destruct C1_cache_eviction_invariant as (_ & _ & _ & Hscenario).
  destruct (Hscenario scenarioD_pages Hcount Hfull) as [Hlen Hphotos].
  split; [exact Hcount |]. split; [exact Hfull |]. split; [exact Hlen |].
  rewrite Hphotos. vm_compute. reflexivity.
Defined.

(** ** Pagination flags *)

(** C2. Pagination termination.  After a [loadAllPhotos] whose page fetch
    resolved, and after a [loadMorePhotos] that did fetch (the store was idle
    with more to load) and whose fetch resolved, [hasMorePhotos] is false
    exactly when the page just fetched ([null] counting as empty) has fewer
    than 100 records. *)
Theorem C2_pagination_termination :
  (forall firstPage count libs st,
      hasMorePhotos (loadAllPhotos (Resolved firstPage) count libs st) = false
      <-> arrayLength (orEmpty firstPage) < PAGE_SIZE)
  /\ (forall backend nextPage st,
         isLoadingMore st = false -> hasMorePhotos st = true ->
         backend PAGE_SIZE (arrayLength (photos st)) = Resolved nextPage ->
         (hasMorePhotos (loadMorePhotos backend st) = false
          <-> arrayLength (orEmpty nextPage) < PAGE_SIZE)).
Proof.
  split.
  - intros firstPage count libs st. unfold loadAllPhotos.
    destruct count as [c | r], libs as [[l |] | r']; simpl;
      rewrite Z.leb_gt; reflexivity.
  - intros backend nextPage st Hidle Hmore Hfetch.
    unfold loadMorePhotos, loadMorePhotos_settled.
    rewrite Hidle, Hmore. simpl. rewrite Hfetch.
    destruct nextPage as [nextPage |]; cbn [orEmpty default].
    + destruct (Z.eqb_spec (arrayLength nextPage) 0) as [H0 | Hne]; cbn.
      * rewrite H0. unfold PAGE_SIZE. split; reflexivity.
      * apply Z.leb_gt.
    + cbn. unfold PAGE_SIZE. split; reflexivity.
Qed.

Lemma C2_pagination_termination_witness :
  hasMorePhotos (loadMorePhotos (answering (firstn 40 (fetchedPage 2)))
                                (runLoadMore (map answering [fetchedPage 0; fetchedPage 1])
                                             initialStore)) = false
  /\ hasMorePhotos (loadMorePhotos (answering (fetchedPage 2))
                                   (runLoadMore (map answering [fetchedPage 0; fetchedPage 1])
                                                initialStore)) <> false.
Proof.
  destruct C2_pagination_termination as [_ Hmore].
  split.
  - apply (Hmore _ (Some (firstn 40 (fetchedPage 2)))); [reflexivity .. |].
    vm_compute. reflexivity.
  - intros Hfalse.
    apply (Hmore _ (Some (fetchedPage 2))) in Hfalse; [| reflexivity ..].
    vm_compute in Hfalse. discriminate.
Defined.

(** C9. Pagination failure cleanup.  When the page fetch of a
    [loadMorePhotos] call is rejected, [hasMorePhotos] and the cache are what
    they were before the call and [isLoadingMore] is false.  The reset belongs
    to the [finally] step: resuming from a rejected fetch changes nothing but
    [isLoadingMore], and however the fetch settled [isLoadingMore] is false
    afterwards. *)
Theorem C9_pagination_failure_cleanup :
  (forall backend reason st,
      isLoadingMore st = false -> hasMorePhotos st = true ->
      backend PAGE_SIZE (arrayLength (photos st)) = Rejected reason ->
      let st' := loadMorePhotos backend st in
      hasMorePhotos st' = hasMorePhotos st
      /\ photos st' = photos st
      /\ isLoadingMore st' = false)
  /\ (forall reason st,
         loadMorePhotos_settled (Rejected reason) st = set_isLoadingMore false st)
  /\ (forall nextPage st, isLoadingMore (loadMorePhotos_settled nextPage st) = false)
  /\ (forall backend st,
         isLoadingMore st = false -> hasMorePhotos st = true ->
         isLoadingMore (loadMorePhotos backend st) = false).
Proof.
  split; [| split; [| split]].
  - intros backend reason st Hidle Hmore Hfetch. unfold loadMorePhotos.
    rewrite Hidle, Hmore. simpl. rewrite Hfetch. simpl. auto.
  - reflexivity.
  - reflexivity.
  - intros backend st Hidle Hmore. unfold loadMorePhotos.
    rewrite Hidle, Hmore. reflexivity.
Qed.

Lemma C9_pagination_failure_cleanup_witness :
  let st := runLoadMore (map answering [fetchedPage 0]) initialStore in
  let st' := loadMorePhotos (fun _ _ => Rejected "database is locked") st in
  hasMorePhotos st' = true /\ photos st' = fetchedPage 0 /\ isLoadingMore st' = false.
Proof.
  destruct C9_pagination_failure_cleanup as [Hfail _].
  intros st st'.
  destruct (Hfail (fun _ _ => Rejected "database is locked") "database is locked" st)
    as (Hmore & Hphotos & Hidle); [reflexivity .. |].
  fold st' in Hmore, Hphotos, Hidle.
  rewrite Hmore, Hphotos. split; [reflexivity |]. split; [reflexivity | exact Hidle].
Defined.

(** ** Mutating commands *)

(** C8. Mutation atomicity.  [toggleFavorite], [deletePhotos] and
    [renamePhoto] start with the repository call: when it is rejected the
    store, cache and [selectedPhoto] included, is returned as it was; when it
    resolves the update reaches every cached record with the id, and no
    record named by a delete stays cached. *)
Theorem C8_mutation_atomicity :
  (forall reason photoId photoIds newFilename st,
      toggleFavorite (Rejected reason) photoId st = (st, false)
      /\ deletePhotos (Rejected reason) photoIds st = st
      /\ renamePhoto (Rejected reason) photoId newFilename st = st)
  /\ (forall isFav photoId st p,
         In p (photos (fst (toggleFavorite (Resolved isFav) photoId st))) ->
         id p = photoId -> isFavorite p = isFav)
  /\ (forall photoIds st p,
         In p (photos (deletePhotos (Resolved tt) photoIds st)) -> ~ In (id p) photoIds)
  /\ (forall newPath photoId newFilename st p,
         In p (photos (renamePhoto (Resolved newPath) photoId newFilename st)) ->
         id p = photoId -> filename p = newFilename /\ path p = newPath).
Proof.
  split; [| split; [| split]].
  - intros. repeat split.
  - intros isFav photoId st p Hin Hid. simpl in Hin.
    apply in_map_iff in Hin as (q & Hq & _).
    destruct (Z.eqb_spec (id q) photoId) as [_ | Hne]; subst p; [reflexivity |].
    contradiction.
  - intros photoIds st p Hin Hmem. simpl in Hin.
    apply filter_In in Hin as [_ Hkeep].
    apply negb_true_iff in Hkeep. unfold JS.arrayIncludesNum in Hkeep.
    assert (Hex : existsb (Z.eqb (id p)) photoIds = true).
    { apply existsb_exists. exists (id p). split; [exact Hmem | apply Z.eqb_refl]. }
    congruence.
  - intros newPath photoId newFilename st p Hin Hid. simpl in Hin.
    apply in_map_iff in Hin as (q & Hq & _).
    destruct (Z.eqb_spec (id q) photoId) as [_ | Hne]; subst p; [split; reflexivity |].
    contradiction.
Qed.

Lemma C8_mutation_atomicity_witness :
  let toggled := photos (fst (toggleFavorite (Resolved true) 7 sampleStore)) in
  let renamed := photos (renamePhoto (Resolved "/library/cat.jpg") 7 "cat.jpg" sampleStore) in
  isFavorite (nth 7 toggled (fetched 0)) = true
  /\ filename (nth 7 renamed (fetched 0)) = "cat.jpg"
  /\ ~ In 7 (map id (photos (deletePhotos (Resolved tt) [7; 8] sampleStore)))
  /\ photos (deletePhotos (Rejected "busy") [7; 8] sampleStore) = photos sampleStore.
Proof.
  destruct C8_mutation_atomicity as (Hfail & Hfav & Hdel & Hren).
  intros toggled renamed. split; [| split; [| split]].
  - apply (Hfav true 7 sampleStore); [| reflexivity].
    apply nth_In. vm_compute. lia.
  - apply (Hren "/library/cat.jpg" 7 "cat.jpg" sampleStore); [| reflexivity].
    apply nth_In. vm_compute. lia.
  - intros Hin. apply in_map_iff in Hin as (p & Hid & Hp).
    apply (Hdel [7; 8] sampleStore p Hp). rewrite Hid. left. reflexivity.
  - destruct (Hfail "busy" 7 [7; 8] "" sampleStore) as (_ & -> & _). reflexivity.
Defined.

(** C10. A resolved [hardDeletePhotos] empties the selection and leaves
    multi-select mode, whatever was selected and whichever ids were deleted; a
    resolved [deletePhotos] leaves both as they were. *)
Theorem C10_hard_delete_clears_selection :
  forall photoIds deleteFromDisk st,
    selectedPhotoIds (hardDeletePhotos (Resolved tt) photoIds deleteFromDisk st) = ∅
    /\ isMultiSelectMode (hardDeletePhotos (Resolved tt) photoIds deleteFromDisk st) = false
    /\ selectedPhotoIds (deletePhotos (Resolved tt) photoIds st) = selectedPhotoIds st
    /\ isMultiSelectMode (deletePhotos (Resolved tt) photoIds st) = isMultiSelectMode st.
Proof. intros photoIds deleteFromDisk st. repeat split. Qed.

Example hardDelete_sample :
  selectedPhotoIds (hardDeletePhotos (Resolved tt) [7] false sampleStore) = ∅
  /\ selectedPhotoIds (deletePhotos (Resolved tt) [7] sampleStore) = {[ 3; 7 ]}.
Proof. split; reflexivity. Qed.

(** ** The filter pipeline *)

Lemma insertSorted_Permutation {A} (compareFn : A -> A -> option Z) (x : A) (l : list A) :
  Permutation (JS.insertSorted compareFn x l) (x :: l).
Proof.
  induction l as [| y l IH]; simpl; [reflexivity |].
  destruct (JS.comesBefore compareFn x y); [reflexivity |].
  rewrite IH. apply perm_swap.
Qed.

Lemma sort_Permutation {A} (compareFn : A -> A -> option Z) (l : list A) :
  Permutation (JS.sort compareFn l) l.
Proof.
  induction l as [| x l IH]; simpl; [reflexivity |].
  rewrite insertSorted_Permutation. apply perm_skip, IH.
Qed.

Lemma sort_In {A} (compareFn : A -> A -> option Z) (l : list A) (x : A) :
  In x (JS.sort compareFn l) <-> In x l.
Proof.
  split; apply Permutation_in; [| symmetry]; apply sort_Permutation.
Qed.

(** Every stage keeps a record only if it received it. *)
Section Stages.
Variable h : JS.Host.
Variable now : Z.

Lemma filter_keeps (f : Photo -> bool) (l : list Photo) (p : Photo) :
  In p (List.filter f l) -> In p l.
Proof. intros Hin. apply filter_In in Hin. tauto. Qed.

Lemma sourceStage_keeps section src l p : In p (sourceStage section src l) -> In p l.
Proof.
  unfold sourceStage. destruct section, src as [s |]; try tauto.
  destruct (JS.truthyString s); [apply filter_keeps | tauto].
Qed.

Lemma sectionStage_keeps section l p : In p (sectionStage h now section l) -> In p l.
Proof. unfold sectionStage. destruct section; try tauto; apply filter_keeps. Qed.

Lemma searchStage_keeps q l p : In p (searchStage h q l) -> In p l.
Proof.
  unfold searchStage. destruct (JS.truthyString q); [apply filter_keeps | tauto].
Qed.

Lemma mediaTypeStage_keeps section filters l p :
  In p (mediaTypeStage section filters l) -> In p l.
Proof. unfold mediaTypeStage. destruct section; try tauto; apply filter_keeps. Qed.

Lemma folderStage_keeps filters l p : In p (folderStage filters l) -> In p l.
Proof.
  unfold folderStage. destruct (selectedFolder filters) as [s |]; [| tauto].
  destruct (JS.truthyString s); [apply filter_keeps | tauto].
Qed.

Lemma yearStage_keeps filters l p : In p (yearStage h filters l) -> In p l.
Proof.
  unfold yearStage.
  destruct (JS.truthyNullableNumber (selectedYear filters)); [apply filter_keeps | tauto].
Qed.

Lemma monthStage_keeps filters l p : In p (monthStage h filters l) -> In p l.
Proof.
  unfold monthStage.
  destruct (_ && _); [apply filter_keeps | tauto].
Qed.

End Stages.

(** Walks a membership hypothesis back through the stages after the section
    stage. *)
Ltac back_to_section H :=
  apply monthStage_keeps, yearStage_keeps, folderStage_keeps, mediaTypeStage_keeps,
        searchStage_keeps in H.

(** A record of the output went through the section stage. *)
Lemma filteredPhotos_section h now photos filters searchQuery sortBy section src p :
  In p (filteredPhotos h now photos filters searchQuery sortBy section src) ->
  In p (sectionStage h now section (sourceStage section src photos)).
Proof.
  unfold filteredPhotos, narrowed. rewrite sort_In. intros Hin.
  back_to_section Hin. exact Hin.
Qed.

(** C5. Videos-section override.  In the videos section the media-type
    stage returns its input, every record of the output has media type
    ["video"], and the output is the same whatever [selectedMediaTypes]
    holds. *)
Theorem C5_videos_section_override :
  forall h now photos filters searchQuery sortBy activeSource,
    let output :=
      filteredPhotos h now photos filters searchQuery sortBy SidebarSection.videos
                     activeSource in
    Forall (fun p => mediaType p = "video") output
    /\ (forall filtered,
           mediaTypeStage SidebarSection.videos filters filtered = filtered)
    /\ (forall types,
           filteredPhotos h now photos (withMediaTypes filters types) searchQuery sortBy
                          SidebarSection.videos activeSource = output).
Proof.
  intros h now photos filters searchQuery sortBy activeSource output.
  split; [| split].
  - apply List.Forall_forall. intros p Hin. subst output.
    apply filteredPhotos_section in Hin. cbn [sectionStage] in Hin.
    apply filter_In in Hin as [_ Hvideo].
    apply String.eqb_eq. exact Hvideo.
  - reflexivity.
  - reflexivity.
Qed.

Example scenarioC :
  filteredPhotos JS.utcHost noon15March2024 [holidayPhoto; holidayVideo; lastYearPhoto]
                 photosOnly "" SortBy.date_desc SidebarSection.videos None
  = [holidayVideo].
Proof. vm_compute. reflexivity. Qed.

Lemma strictEq_Some (x : option Z) (b : Z) : JS.strictEq x (Some b) = true <-> x = Some b.
Proof.
  destruct x as [a |]; simpl; [| split; discriminate].
  rewrite Z.eqb_eq. split; congruence.
Qed.

(** The month stage is the last stage before the sort and the only reader
    of [selectedMonth]. *)
Lemma narrowed_monthStage h now photos filters searchQuery section src :
  narrowed h now photos filters searchQuery section src
  = monthStage h filters
      (narrowed h now photos (withMonth filters None) searchQuery section src).
Proof. reflexivity. Qed.

Lemma monthMatches_spec h filters y m p :
  selectedYear filters = Some y -> selectedMonth filters = Some m ->
  monthMatches h filters p = true
  <-> JS.getFullYear h (JS.newDate h (effectiveDate p)) = Some y
      /\ JS.getMonth h (JS.newDate h (effectiveDate p)) = Some m.
Proof.
  intros Hy Hm. unfold monthMatches. rewrite Hy, Hm.
  rewrite andb_true_iff, !strictEq_Some. reflexivity.
Qed.

(** C6. Month filter requires year (amended).  The month stage runs only
    when [selectedMonth] is not [null] and [selectedYear] is truthy, that is
    neither [null] nor [0]; otherwise it returns its input and the output is
    the one obtained with [selectedMonth = null].  When it runs, the records
    kept are those of the output without month whose effective date
    ([takenAt || modifiedAt]) has the selected year and the selected
    zero-indexed month. *)
Theorem C6_month_filter_requires_year :
  forall h now photos filters searchQuery sortBy activeSection activeSource,
    let output (f : FilterState) :=
      filteredPhotos h now photos f searchQuery sortBy activeSection activeSource in
    (selectedMonth filters = None \/ JS.truthyNullableNumber (selectedYear filters) = false ->
     (forall filtered, monthStage h filters filtered = filtered)
     /\ output filters = output (withMonth filters None))
    /\ (forall y m,
           selectedYear filters = Some y -> y <> 0 -> selectedMonth filters = Some m ->
           forall p,
             In p (output filters)
             <-> In p (output (withMonth filters None))
                 /\ JS.getFullYear h (JS.newDate h (effectiveDate p)) = Some y
                 /\ JS.getMonth h (JS.newDate h (effectiveDate p)) = Some m).
Proof.
  intros h now photos filters searchQuery sortBy activeSection activeSource output.
  split.
  - intros Hskip.
    assert (Hid : forall filtered, monthStage h filters filtered = filtered).
    { intros filtered. unfold monthStage.
      destruct Hskip as [Hmonth | Hyear].
      - rewrite Hmonth. reflexivity.
      - rewrite Hyear, andb_false_r. reflexivity. }
    split; [exact Hid |].
    unfold output, filteredPhotos. rewrite narrowed_monthStage, Hid. reflexivity.
  - intros y m Hy Hy0 Hm p. unfold output, filteredPhotos.
    rewrite !sort_In, narrowed_monthStage.
    unfold monthStage at 1. rewrite Hy, Hm.
    replace (bool_decide (Some m <> None) && JS.truthyNullableNumber (Some y)) with true.
    + rewrite filter_In, (monthMatches_spec h filters y m p Hy Hm). reflexivity.
    + simpl. apply Z.eqb_neq in Hy0. rewrite Hy0. reflexivity.
Qed.

Lemma C6_month_filter_requires_year_witness :
  let cache := [holidayPhoto; holidayVideo; lastYearPhoto] in
  let output f :=
    filteredPhotos JS.utcHost noon15March2024 cache f "" SortBy.date_desc
                   SidebarSection.all None in
  In holidayPhoto (output january2024)
  /\ ~ In lastYearPhoto (output january2024)
  /\ output (withMonth photosOnly (Some 0)) = output (withMonth (withMonth photosOnly (Some 0)) None).
Proof.
  intros cache output.
  pose proof (C6_month_filter_requires_year JS.utcHost noon15March2024 cache january2024 ""
                SortBy.date_desc SidebarSection.all None) as [_ Hkept].
  pose proof (C6_month_filter_requires_year JS.utcHost noon15March2024 cache
                (withMonth photosOnly (Some 0)) ""
                SortBy.date_desc SidebarSection.all None) as [Hnoop _].
  assert (Hyear : (2024 : Z) <> 0) by lia.
  split; [| split].
  - refine (proj2 (Hkept 2024 0 eq_refl Hyear eq_refl holidayPhoto) _).
    split; [vm_compute; auto | split; vm_compute; reflexivity].
  - intros Hin.
    destruct (proj1 (Hkept 2024 0 eq_refl Hyear eq_refl lastYearPhoto) Hin) as (_ & Hy & _).
    vm_compute in Hy. discriminate.
  - exact (proj2 (Hnoop (or_intror eq_refl))).
Defined.

Lemma C6_counterexample :
  selectedYear yearZeroJanuary = Some 0
  /\ selectedMonth yearZeroJanuary = Some 0
  /\ filteredPhotos JS.utcHost noon15March2024 [marchPhoto] yearZeroJanuary ""
                    SortBy.date_desc SidebarSection.all None = [marchPhoto]
  /\ JS.getFullYear JS.utcHost (JS.newDate JS.utcHost (effectiveDate marchPhoto)) = Some 2024
  /\ JS.getMonth JS.utcHost (JS.newDate JS.utcHost (effectiveDate marchPhoto)) = Some 2.
Proof.
  split; [reflexivity |]. split; [reflexivity |].
  split; [vm_compute; reflexivity |]. split; vm_compute; reflexivity.
Qed.

(** ** The calendar *)

Ltac split_comparisons :=
  repeat match goal with
         | |- context [?a <? ?b] => destruct (Z.ltb_spec a b)
         | |- context [?a <=? ?b] => destruct (Z.leb_spec a b)
         end.

Lemma civilFromDays_month_range (z : Z) : 1 <= snd (fst (JS.civilFromDays z)) <= 12.
Proof.
  unfold JS.civilFromDays. cbv zeta. cbn [fst snd].
  split_comparisons; Z.div_mod_to_equations; lia.
Qed.

(** [daysFromCivil] inverts [civilFromDays], also for a day of the month
    shifted out of its month. *)
Lemma daysFromCivil_civilFromDays (z n : Z) :
  JS.daysFromCivil (fst (fst (JS.civilFromDays z))) (snd (fst (JS.civilFromDays z)))
                   (snd (JS.civilFromDays z) + n) = z + n.
Proof.
  unfold JS.civilFromDays, JS.daysFromCivil. cbv zeta. cbn [fst snd].
  split_comparisons; Z.div_mod_to_equations; lia.
Qed.

Lemma MakeDay_shift (t n : Z) :
  JS.MakeDay (JS.YearFromTime t) (JS.MonthFromTime t) (JS.DateFromTime t + n) = JS.Day t + n.
Proof.
  unfold JS.MakeDay, JS.YearFromTime, JS.MonthFromTime, JS.DateFromTime. cbv zeta.
  pose proof (civilFromDays_month_range (JS.Day t)) as Hm.
  set (m := snd (fst (JS.civilFromDays (JS.Day t)))) in *.
  replace ((m - 1) / 12) with 0 by (Z.div_mod_to_equations; lia).
  replace ((m - 1) mod 12 + 1) with m by (Z.div_mod_to_equations; lia).
  rewrite Z.add_0_r. subst m.
  rewrite <- (daysFromCivil_civilFromDays (JS.Day t) n).
  unfold JS.daysFromCivil. cbv zeta. lia.
Qed.

(** In a zone whose offset from UTC never changes, moving the day of the
    month back by 30 moves the instant back by 30 times 24 hours. *)
Lemma recentsCutoff_fixed_offset (h : JS.Host) (k now : Z) :
  (forall t, JS.LocalTime h t = t + k) -> (forall t, JS.UTC h t = t - k) ->
  recentsCutoff h now = Some (now - 30 * JS.msPerDay).
Proof.
  intros Hlocal Hutc. unfold recentsCutoff, JS.setDate, JS.getDate. simpl.
  rewrite Hutc, Hlocal. f_equal.
  replace (JS.DateFromTime (now + k) - 30) with (JS.DateFromTime (now + k) + (- 30)) by lia.
  rewrite MakeDay_shift.
  unfold JS.MakeDate, JS.TimeWithinDay, JS.Day, JS.msPerDay.
  Z.div_mod_to_equations. lia.
Qed.

Example recentsCutoff_utc :
  recentsCutoff JS.utcHost noon15March2024 = JS.isoParse "2024-02-14T12:00:00Z".
Proof. vm_compute. reflexivity. Qed.

(** ** The recents section *)

Lemma geNum_Some (d : option Z) (c : Z) :
  JS.geNum d (Some c) = true <-> exists t, d = Some t /\ c <= t.
Proof.
  destruct d as [t |]; simpl.
  - rewrite Z.leb_le. split; [eauto | intros (t' & [= <-] & Hle); exact Hle].
  - split; [discriminate | intros (t' & [=] & _)].
Qed.

(** C7. Recents section window (amended).  In a zone of constant UTC offset
    the recents section keeps, in cache order, exactly the records whose
    effective date ([takenAt || modifiedAt]) parses to an instant at or after
    the current instant minus 30 days; the boundary is included, an
    unparseable date is dropped, and there is no upper end: a record dated
    after the current instant is kept. *)
Theorem C7_recents_window :
  forall h k now photos,
    (forall t, JS.LocalTime h t = t + k) -> (forall t, JS.UTC h t = t - k) ->
    sectionStage h now SidebarSection.recents photos
    = List.filter (fun p => match JS.newDate h (effectiveDate p) with
                            | Some t => now - 30 * 86400000 <=? t
                            | None => false
                            end) photos
    /\ (forall p,
           In p (sectionStage h now SidebarSection.recents photos)
           <-> In p photos
               /\ exists t, JS.newDate h (effectiveDate p) = Some t
                            /\ now - 30 * 86400000 <= t).
Proof.
  intros h k now photos Hlocal Hutc.
  pose proof (recentsCutoff_fixed_offset h k now Hlocal Hutc) as Hcut.
  unfold JS.msPerDay in Hcut. unfold sectionStage. rewrite Hcut.
  split.
  - apply filter_ext. intros p. unfold JS.geNum.
    destruct (JS.newDate h (effectiveDate p)); reflexivity.
  - intros p. rewrite filter_In, geNum_Some. reflexivity.
Qed.

Lemma C7_recents_window_witness :
  sectionStage JS.utcHost noon15March2024 SidebarSection.recents
               [stalePhoto; boundaryPhoto; tomorrowPhoto; marchPhoto]
  = [boundaryPhoto; tomorrowPhoto; marchPhoto].
Proof.
  assert (Hlocal : forall t, JS.LocalTime JS.utcHost t = t + 0) by (intros t; simpl; lia).
  assert (Hutc : forall t, JS.UTC JS.utcHost t = t - 0) by (intros t; simpl; lia).
  rewrite (proj1 (C7_recents_window JS.utcHost 0 noon15March2024
                    [stalePhoto; boundaryPhoto; tomorrowPhoto; marchPhoto] Hlocal Hutc)).
  vm_compute. reflexivity.
Defined.

Lemma C7_counterexample :
  JS.newDate JS.utcHost (effectiveDate tomorrowPhoto) = Some (noon15March2024 + 86400000)
  /\ sectionStage JS.utcHost noon15March2024 SidebarSection.recents [tomorrowPhoto]
     = [tomorrowPhoto].
Proof. split; vm_compute; reflexivity. Qed.

(** ** What the pipeline reads besides its inputs *)

(** C3. Filter pipeline determinism (amended).  The output is a function of
    the declared inputs, of the host (time zone, date parsing, locale) and of
    the current time.  The current time is read by the recents section only,
    and only through its cutoff: in any other section, or whenever two
    evaluations compute the same cutoff, identical declared inputs give
    identical ordered outputs. *)
Theorem C3_filter_pipeline_determinism :
  forall h photos filters searchQuery sortBy activeSection activeSource now1 now2,
    activeSection <> SidebarSection.recents
    \/ recentsCutoff h now1 = recentsCutoff h now2 ->
    filteredPhotos h now1 photos filters searchQuery sortBy activeSection activeSource
    = filteredPhotos h now2 photos filters searchQuery sortBy activeSection activeSource.
Proof.
  intros h photos filters searchQuery sortBy activeSection activeSource now1 now2 Hclock.
  unfold filteredPhotos, narrowed. do 6 f_equal.
  destruct activeSection; try reflexivity.
  destruct Hclock as [Hsection | Hcut]; [contradiction |].
  unfold sectionStage. rewrite Hcut. reflexivity.
Qed.

Lemma C3_filter_pipeline_determinism_witness :
  filteredPhotos JS.utcHost noon15March2024 [marchPhoto; holidayVideo] allMedia "tulips"
                 SortBy.name_asc SidebarSection.all None
  = filteredPhotos JS.utcHost noon15April2024 [marchPhoto; holidayVideo] allMedia "tulips"
                   SortBy.name_asc SidebarSection.all None.
Proof.
  apply C3_filter_pipeline_determinism. left. discriminate.
Defined.

(** The same cache, filters, query, sort key, section and source, evaluated
    31 days apart. *)
Lemma C3_counterexample :
  filteredPhotos JS.utcHost noon15March2024 [marchPhoto] allMedia ""
                 SortBy.date_desc SidebarSection.recents None = [marchPhoto]
  /\ filteredPhotos JS.utcHost noon15April2024 [marchPhoto] allMedia ""
                    SortBy.date_desc SidebarSection.recents None = [].
Proof. split; vm_compute; reflexivity. Qed.

(** ** Grouping *)

Lemma firstSeen_In (ks : list string) (k : string) : In k (firstSeen ks) <-> In k ks.
Proof.
  induction ks as [| a ks IH]; simpl; [reflexivity |].
  rewrite filter_In, IH, negb_true_iff, String.eqb_neq.
  destruct (String.eqb_spec k a) as [-> | Hne]; [tauto |].
  split; [tauto |]. intros [Ha | Hin]; [left; exact Ha | right; tauto].
Qed.

Lemma firstSeen_NoDup (ks : list string) : List.NoDup (firstSeen ks).
Proof.
  induction ks as [| a ks IH]; simpl; constructor.
  - rewrite filter_In, negb_true_iff, String.eqb_neq. tauto.
  - apply List.NoDup_filter, IH.
Qed.

Lemma firstSeen_snoc (ks : list string) (k : string) :
  firstSeen (ks ++ [k])
  = if existsb (String.eqb k) ks then firstSeen ks else firstSeen ks ++ [k].
Proof.
  induction ks as [| a ks IH]; simpl; [reflexivity |].
  rewrite IH.
  destruct (String.eqb_spec k a) as [-> | Hne]; simpl.
  - destruct (existsb (String.eqb a) ks); [reflexivity |].
    rewrite List.filter_app. simpl. rewrite String.eqb_refl. simpl.
    rewrite app_nil_r. reflexivity.
  - destruct (existsb (String.eqb k) ks); [reflexivity |].
    rewrite List.filter_app. simpl.
    apply String.eqb_neq in Hne. rewrite Hne. reflexivity.
Qed.

Lemma existsb_eqb_In (k : string) (ks : list string) :
  existsb (String.eqb k) ks = true <-> In k ks.
Proof.
  rewrite existsb_exists. split.
  - intros (k' & Hin & Heq). apply String.eqb_eq in Heq. subst. exact Hin.
  - intros Hin. exists k. split; [exact Hin | apply String.eqb_refl].
Qed.

Section JSMapFacts.
Context {V : Type}.

Lemma JSMap_has_keys (k : string) (m : JSMap.t V) :
  JSMap.has k m = true <-> In k (map fst m).
Proof.
  unfold JSMap.has. induction m as [| [k' v] m IH]; simpl; [split; [discriminate | tauto] |].
  destruct (String.eqb_spec k' k) as [-> | Hne]; [tauto |].
  rewrite IH. tauto.
Qed.

Lemma JSMap_set_fresh (k : string) (v : V) (m : JSMap.t V) :
  JSMap.has k m = false -> JSMap.set k v m = m ++ [(k, v)].
Proof.
  unfold JSMap.has. induction m as [| [k' v'] m IH]; simpl; [reflexivity |].
  destruct (String.eqb k' k); [discriminate |].
  intros Hfresh. rewrite IH by exact Hfresh. reflexivity.
Qed.

Lemma JSMap_mutate_last (k : string) (f : V -> V) (v : V) (m : JSMap.t V) :
  JSMap.has k m = false -> JSMap.mutate k f (m ++ [(k, v)]) = m ++ [(k, f v)].
Proof.
  unfold JSMap.has. induction m as [| [k' v'] m IH]; simpl.
  - rewrite String.eqb_refl. reflexivity.
  - destruct (String.eqb k' k); [discriminate |].
    intros Hfresh. rewrite IH by exact Hfresh. reflexivity.
Qed.

(** On a map with distinct keys laid out as [k' |-> g k'], [mutate] changes
    the one entry under [k]. *)
Lemma JSMap_mutate_tabulated (k : string) (f : V -> V) (g : string -> V)
    (ks : list string) :
  List.NoDup ks ->
  JSMap.mutate k f (map (fun k' => (k', g k')) ks)
  = map (fun k' => (k', if String.eqb k' k then f (g k') else g k')) ks.
Proof.
  induction 1 as [| a ks Hfresh _ IH]; simpl; [reflexivity |].
  destruct (String.eqb_spec a k) as [-> | Hne].
  - f_equal. apply map_ext_in. intros k' Hin.
    destruct (String.eqb_spec k' k) as [-> | _]; [contradiction | reflexivity].
  - rewrite IH. reflexivity.
Qed.

End JSMapFacts.

Section GroupingFacts.
Variable h : JS.Host.
Variable now : Z.

Abbreviation key := (dateKeyOf h now).

Lemma bucket_snoc (l : list Photo) (x : Photo) (k : string) :
  bucket h now (l ++ [x]) k = if String.eqb (key x) k then bucket h now l k ++ [x] else bucket h now l k.
Proof.
  unfold bucket. rewrite List.filter_app. simpl.
  destruct (String.eqb (key x) k); [reflexivity | apply app_nil_r].
Qed.

Lemma bucket_absent (l : list Photo) (k : string) :
  ~ In k (map key l) -> bucket h now l k = [].
Proof.
  intros Habsent. unfold bucket. induction l as [| p l IH]; simpl; [reflexivity |].
  simpl in Habsent.
  destruct (String.eqb_spec (key p) k) as [Heq | _]; [tauto |].
  apply IH. tauto.
Qed.

Lemma groupStep_groupMap (groupMap : JSMap.t (list Photo)) (groupLabels : JSMap.t string)
    (photo : Photo) :
  fst (groupStep h now (groupMap, groupLabels) photo)
  = JSMap.mutate (key photo) (fun arr => arr ++ [photo])
      (if JSMap.has (key photo) groupMap then groupMap
       else JSMap.set (key photo) [] groupMap).
Proof.
  unfold groupStep, dateKeyOf.
  destruct (labelAndKey h now photo) as [label dateKey]. simpl.
  destruct (JSMap.has dateKey groupMap); reflexivity.
Qed.

Lemma tabulated_has (l : list Photo) (k : string) :
  JSMap.has k (tabulated h now l) = existsb (String.eqb k) (map key l).
Proof.
  apply eq_true_iff_eq.
  rewrite JSMap_has_keys, existsb_eqb_In. unfold tabulated.
  rewrite map_map. simpl. rewrite map_id. apply firstSeen_In.
Qed.

Lemma tabulated_step (l : list Photo) (photo : Photo) (groupLabels : JSMap.t string) :
  fst (groupStep h now (tabulated h now l, groupLabels) photo) = tabulated h now (l ++ [photo]).
Proof.
  rewrite groupStep_groupMap, tabulated_has.
  unfold tabulated at 3. rewrite map_app. simpl map. rewrite firstSeen_snoc.
  destruct (existsb (String.eqb (key photo)) (map key l)) eqn:Hseen.
  - unfold tabulated.
    rewrite (JSMap_mutate_tabulated _ _ (bucket h now l)) by apply firstSeen_NoDup.
    apply map_ext. intros k. rewrite bucket_snoc.
    rewrite (String.eqb_sym k). reflexivity.
  - assert (Habsent : ~ In (key photo) (map key l)).
    { rewrite <- existsb_eqb_In, Hseen. discriminate. }
    rewrite JSMap_set_fresh by (rewrite tabulated_has; exact Hseen).
    rewrite JSMap_mutate_last by (rewrite tabulated_has; exact Hseen).
    rewrite map_app. simpl. f_equal.
    + apply map_ext_in. intros k Hin. rewrite bucket_snoc.
      destruct (String.eqb_spec (key photo) k) as [Heq | _]; [| reflexivity].
      apply (proj1 (firstSeen_In _ _)) in Hin. subst k. contradiction.
    + rewrite bucket_snoc, String.eqb_refl, (bucket_absent l _ Habsent). reflexivity.
Qed.

Lemma groupMap_tabulated (l : list Photo) :
  fst (fold_left (groupStep h now) l (JSMap.empty, JSMap.empty)) = tabulated h now l.
Proof.
  induction l as [| photo l IH] using rev_ind; [reflexivity |].
  rewrite fold_left_app. simpl.
  destruct (fold_left (groupStep h now) l (JSMap.empty, JSMap.empty))
    as [groupMap groupLabels].
  simpl in IH. subst groupMap. apply tabulated_step.
Qed.

Lemma groupedPhotos_keys (l : list Photo) :
  map Group.dateKey (groupedPhotos h now l) = firstSeen (map key l).
Proof.
  unfold groupedPhotos. pose proof (groupMap_tabulated l) as Hmap.
  destruct (fold_left (groupStep h now) l (JSMap.empty, JSMap.empty))
    as [groupMap groupLabels].
  simpl in Hmap. subst groupMap. unfold tabulated. rewrite !map_map. simpl.
  apply map_id.
Qed.

Lemma groupedPhotos_buckets (l : list Photo) :
  map (fun g => (Group.dateKey g, Group.photos g)) (groupedPhotos h now l) = tabulated h now l.
Proof.
  unfold groupedPhotos. pose proof (groupMap_tabulated l) as Hmap.
  destruct (fold_left (groupStep h now) l (JSMap.empty, JSMap.empty))
    as [groupMap groupLabels].
  simpl in Hmap. subst groupMap. rewrite map_map.
  rewrite <- (map_id (tabulated h now l)) at 2.
  apply map_ext. intros [k ps]. reflexivity.
Qed.

(** Buckets over distinct keys that cover a list partition it. *)
Lemma buckets_Permutation (ks : list string) (l : list Photo) :
  List.NoDup ks -> (forall p, In p l -> In (key p) ks) ->
  Permutation (concat (map (bucket h now l) ks)) l.
Proof.
  intros Hnodup. induction l as [| x l IH]; intros Hcover.
  - clear Hcover. induction ks as [| k ks IHks]; [reflexivity |].
    simpl. apply IHks. inversion Hnodup; assumption.
  - destruct (in_split (key x) ks (Hcover x (or_introl eq_refl))) as (ks1 & ks2 & ->).
    apply List.NoDup_remove_2 in Hnodup as Hfresh.
    assert (Hother : forall k, In k (ks1 ++ ks2) -> bucket h now (x :: l) k = bucket h now l k).
    { intros k Hin. unfold bucket. simpl.
      destruct (String.eqb_spec (key x) k) as [<- | _]; [contradiction | reflexivity]. }
    assert (IH' : Permutation (concat (map (bucket h now l) (ks1 ++ key x :: ks2))) l)
      by (apply IH; intros p Hp; apply Hcover; right; exact Hp).
    rewrite map_app, concat_app in IH' |- *. simpl in IH' |- *.
    rewrite (map_ext_in (bucket h now (x :: l)) (bucket h now l) ks1)
      by (intros k Hin; apply Hother, in_or_app; left; exact Hin).
    rewrite (map_ext_in (bucket h now (x :: l)) (bucket h now l) ks2)
      by (intros k Hin; apply Hother, in_or_app; right; exact Hin).
    unfold bucket at 2. simpl. rewrite String.eqb_refl. fold (bucket h now l (key x)).
    rewrite <- app_comm_cons, <- Permutation_middle.
    apply perm_skip. exact IH'.
Qed.

End GroupingFacts.

(** C4. Grouping completeness.  The photos of the groups, taken together,
    are a rearrangement of the filtered sequence; no two groups share a key
    and the photos of a group are the filtered photos of its key in filtered
    order, so each record sits in exactly one group; the groups come in the
    order in which their keys first occur in the filtered sequence. *)
Theorem C4_grouping_completeness :
  forall h now filtered,
    let groups := groupedPhotos h now filtered in
    Permutation (concat (map Group.photos groups)) filtered
    /\ List.NoDup (map Group.dateKey groups)
    /\ Forall (fun g =>
                 Group.photos g
                 = List.filter (fun p => String.eqb (dateKeyOf h now p) (Group.dateKey g))
                               filtered) groups
    /\ map Group.dateKey groups = firstSeen (map (dateKeyOf h now) filtered).
Proof.
  intros h now filtered groups.
  pose proof (groupedPhotos_keys h now filtered) as Hkeys.
  pose proof (groupedPhotos_buckets h now filtered) as Hbuckets.
  fold groups in Hkeys, Hbuckets.
  assert (Hphotos : map Group.photos groups
                    = map (bucket h now filtered)
                          (firstSeen (map (dateKeyOf h now) filtered))).
  { transitivity (map snd (map (fun g => (Group.dateKey g, Group.photos g)) groups)).
    - rewrite map_map. reflexivity.
    - rewrite Hbuckets. unfold tabulated. rewrite map_map. reflexivity. }
  split; [| split; [| split]].
  - rewrite Hphotos. apply buckets_Permutation.
    + apply firstSeen_NoDup.
    + intros p Hp. apply firstSeen_In, in_map, Hp.
  - rewrite Hkeys. apply firstSeen_NoDup.
  - apply List.Forall_forall. intros g Hg.
    apply (in_map (fun g => (Group.dateKey g, Group.photos g))) in Hg.
    rewrite Hbuckets in Hg. unfold tabulated in Hg.
    apply in_map_iff in Hg as (k & [= <- <-] & _). reflexivity.
  - exact Hkeys.
Qed.

(** ** Scenarios *)

(** Scenario A: pages of 100, 100 and 40 records. *)
Example scenarioA :
  let st := runLoadMore (map answering [fetchedPage 1; firstn 40 (fetchedPage 2)])
              (loadAllPhotos (Resolved (Some (fetchedPage 0))) (Resolved 240)
                             (Rejected "offline") initialStore) in
  arrayLength (photos st) = 240 /\ hasMorePhotos st = false /\ isLoadingMore st = false.
Proof. vm_compute. auto. Qed.

(** Scenario B: a year without a month. *)
Example scenarioB :
  filteredPhotos JS.utcHost noon15March2024 [holidayPhoto; holidayVideo; lastYearPhoto]
                 (withMonth january2024 None) "" SortBy.date_asc SidebarSection.all None
  = [holidayPhoto; holidayVideo].
Proof. vm_compute. reflexivity. Qed.

Example grouped_sample :
  map (fun g => (Group.label g, Group.dateKey g, map id (Group.photos g)))
      (groupedPhotos JS.utcHost noon15March2024
         [tomorrowPhoto; marchPhoto; holidayVideo; holidayPhoto; lastYearPhoto; stalePhoto])
  = [("This Week", "this-week", [7; 4]); ("January 2024", "2024-00", [2; 1]);
     ("December 2023", "2023-11", [3]); ("February 2024", "2024-01", [6])].
Proof. vm_compute. reflexivity. Qed.

(** * Further properties of the store *)

(** ** What the pipeline keeps *)

Lemma stage_length_any {A} (f : A -> bool) (l : list A) :
  (length (List.filter f l) <= length l)%nat.
Proof.
  induction l as [| p l IH]; simpl; [lia |].
  destruct (f p); simpl; lia.
Qed.

Lemma stage_length (f : Photo -> bool) (l : list Photo) :
  (length (List.filter f l) <= length l)%nat.
Proof. apply stage_length_any. Qed.

Lemma narrowed_length h now photos filters searchQuery section src :
  (length (narrowed h now photos filters searchQuery section src) <= length photos)%nat.
Proof.
  unfold narrowed.
  assert (Hsource : (length (sourceStage section src photos) <= length photos)%nat).
  { unfold sourceStage. destruct section, src as [s |]; try lia.
    destruct (JS.truthyString s); [apply stage_length | lia]. }
  assert (Hsection : forall l, (length (sectionStage h now section l) <= length l)%nat).
  { intros l. unfold sectionStage. destruct section; try lia; apply stage_length. }
  assert (Hsearch : forall l, (length (searchStage h searchQuery l) <= length l)%nat).
  { intros l. unfold searchStage.
    destruct (JS.truthyString searchQuery); [apply stage_length | lia]. }
  assert (Hmedia : forall l, (length (mediaTypeStage section filters l) <= length l)%nat).
  { intros l. unfold mediaTypeStage. destruct section; try lia; apply stage_length. }
  assert (Hfolder : forall l, (length (folderStage filters l) <= length l)%nat).
  { intros l. unfold folderStage. destruct (selectedFolder filters) as [s |]; [| lia].
    destruct (JS.truthyString s); [apply stage_length | lia]. }
  assert (Hyear : forall l, (length (yearStage h filters l) <= length l)%nat).
  { intros l. unfold yearStage.
    destruct (JS.truthyNullableNumber _); [apply stage_length | lia]. }
  assert (Hmonth : forall l, (length (monthStage h filters l) <= length l)%nat).
  { intros l. unfold monthStage. destruct (_ && _); [apply stage_length | lia]. }
  etransitivity; [apply Hmonth |]. etransitivity; [apply Hyear |].
  etransitivity; [apply Hfolder |]. etransitivity; [apply Hmedia |].
  etransitivity; [apply Hsearch |]. etransitivity; [apply Hsection |]. exact Hsource.
Qed.

Lemma narrowed_keeps h now photos filters searchQuery section src p :
  In p (narrowed h now photos filters searchQuery section src) -> In p photos.
Proof.
  unfold narrowed. intros Hin. back_to_section Hin.
  eapply sourceStage_keeps, sectionStage_keeps, Hin.
Qed.

(** X1. The filtered photos are cached photos: every record of the output is
    a record of the cache, and the output is never longer than the cache. *)
Theorem filteredPhotos_from_cache :
  forall h now photos filters searchQuery sortBy activeSection activeSource,
    let output :=
      filteredPhotos h now photos filters searchQuery sortBy activeSection activeSource in
    Forall (fun p => In p photos) output
    /\ (length output <= length photos)%nat.
Proof.
  intros h now photos filters searchQuery sortBy activeSection activeSource output.
  split.
  - apply List.Forall_forall. intros p Hin. subst output. unfold filteredPhotos in Hin.
    apply sort_In in Hin. eapply narrowed_keeps, Hin.
  - subst output. unfold filteredPhotos.
    rewrite (Permutation_length (sort_Permutation _ _)). apply narrowed_length.
Qed.

Lemma truthyString_nonempty (s : string) : s <> "" -> JS.truthyString s = true.
Proof. destruct s; [congruence | reflexivity]. Qed.

(** X2. Every active filter holds of every record of the output: the
    favorites section shows favorites only, the source section with an active
    source shows that source only, outside the videos section the media type
    is one of the selected ones, a selected folder and a selected non-zero
    year are matched, and a non-empty query occurs, lower-cased, in the
    lower-cased file name, path or folder. *)
Theorem filteredPhotos_filters_hold :
  forall h now photos filters searchQuery sortBy activeSection activeSource p,
    In p (filteredPhotos h now photos filters searchQuery sortBy activeSection activeSource) ->
    (activeSection = SidebarSection.favorites -> isFavorite p = true)
    /\ (forall src, activeSection = SidebarSection.source -> activeSource = Some src ->
                    src <> "" -> source p = src)
    /\ (activeSection <> SidebarSection.videos ->
        In (mediaType p) (selectedMediaTypes filters))
    /\ (forall folder, selectedFolder filters = Some folder -> folder <> "" ->
                       folderRel p = folder)
    /\ (forall y, selectedYear filters = Some y -> y <> 0 -> yearOf h p = Some y)
    /\ (searchQuery <> "" ->
        let query := JS.toLowerCase h searchQuery in
        JS.includes (JS.toLowerCase h (filename p)) query = true
        \/ JS.includes (JS.toLowerCase h (path p)) query = true
        \/ JS.includes (JS.toLowerCase h (folderRel p)) query = true).
Proof.
  intros h now photos filters searchQuery sortBy activeSection activeSource p Hin.
  unfold filteredPhotos, narrowed in Hin. apply sort_In in Hin.
  pose proof Hin as Hyear. apply monthStage_keeps in Hyear.
  pose proof Hyear as Hfolder. apply yearStage_keeps in Hfolder.
  pose proof Hfolder as Hmedia. apply folderStage_keeps in Hmedia.
  pose proof Hmedia as Hsearch. apply mediaTypeStage_keeps in Hsearch.
  pose proof Hsearch as Hsection. apply searchStage_keeps in Hsection.
  pose proof Hsection as Hsource. apply sectionStage_keeps in Hsource.
  repeat apply conj.
  - intros ->. simpl in Hsection. apply filter_In in Hsection. tauto.
  - intros src -> -> Hsrc. simpl in Hsource.
    rewrite (truthyString_nonempty src Hsrc) in Hsource.
    apply filter_In in Hsource as [_ Heq]. apply String.eqb_eq, Heq.
  - intros Hsection'. unfold mediaTypeStage in Hmedia.
    assert (Hkept : In p (List.filter
                            (fun p => JS.arrayIncludes (selectedMediaTypes filters)
                                                       (mediaType p))
                            (searchStage h searchQuery
                               (sectionStage h now activeSection
                                  (sourceStage activeSection activeSource photos)))))
      by (destruct activeSection; first [exact Hmedia | contradiction]).
    apply filter_In in Hkept as [_ Hkept]. apply existsb_eqb_In, Hkept.
  - intros folder Hsel Hne. unfold folderStage in Hfolder.
    rewrite Hsel, (truthyString_nonempty folder Hne) in Hfolder.
    apply filter_In in Hfolder as [_ Heq]. apply String.eqb_eq, Heq.
  - intros y Hsel Hne. unfold yearStage in Hyear. rewrite Hsel in Hyear.
    simpl in Hyear. apply Z.eqb_neq in Hne. rewrite Hne in Hyear. simpl in Hyear.
    apply filter_In in Hyear as [_ Heq]. apply strictEq_Some, Heq.
  - intros Hne query. unfold searchStage in Hsearch.
    rewrite (truthyString_nonempty searchQuery Hne) in Hsearch.
    apply filter_In in Hsearch as [_ Hmatch].
    apply orb_true_iff in Hmatch as [Hmatch | Hmatch]; [| right; right; exact Hmatch].
    apply orb_true_iff in Hmatch as [Hmatch | Hmatch]; [left | right; left]; exact Hmatch.
Qed.

Lemma filteredPhotos_filters_hold_witness :
  isFavorite (withFavorite holidayPhoto true) = true
  /\ In (mediaType (withFavorite holidayPhoto true)) ["photo"]
  /\ yearOf JS.utcHost (withFavorite holidayPhoto true) = Some 2024.
Proof.
  assert (Hin : In (withFavorite holidayPhoto true)
                   (filteredPhotos JS.utcHost noon15March2024
                      [withFavorite holidayPhoto true; holidayVideo; lastYearPhoto]
                      (withMediaTypes january2024 ["photo"]) "BEACH" SortBy.name_asc
                      SidebarSection.favorites None))
    by (vm_compute; auto).
  destruct (filteredPhotos_filters_hold _ _ _ _ _ _ _ _ _ Hin)
    as (Hfav & _ & Hmedia & _ & Hyear & _).
  split; [apply Hfav; reflexivity |].
  split; [apply Hmedia; discriminate |].
  apply (Hyear 2024); [reflexivity | lia].
Defined.

(** ** Sorting *)

Section SortFacts.
Context {A : Type} (compareFn : A -> A -> option Z) (key : A -> Z).

Lemma insertSorted_In (x y : A) (l : list A) :
  In y (JS.insertSorted compareFn x l) <-> y = x \/ In y l.
Proof.
  split.
  - intros Hin. apply (Permutation_in _ (insertSorted_Permutation compareFn x l)) in Hin.
    destruct Hin as [<- | Hin]; auto.
  - intros Hin.
    apply (Permutation_in _ (Permutation_sym (insertSorted_Permutation compareFn x l))).
    destruct Hin as [-> | Hin]; [left | right]; auto.
Qed.

Lemma insertSorted_sorted (x : A) (l : list A) :
  (forall y, In y l -> JS.comesBefore compareFn x y = (key x <=? key y)) ->
  StronglySorted (fun a b => key a <= key b) l ->
  StronglySorted (fun a b => key a <= key b) (JS.insertSorted compareFn x l).
Proof.
  intros Hcmp Hsorted. induction Hsorted as [| y l Hsorted IH Hall]; simpl.
  - repeat constructor.
  - rewrite (Hcmp y (or_introl eq_refl)).
    destruct (Z.leb_spec (key x) (key y)) as [Hle | Hgt].
    + constructor; [constructor; assumption |].
      constructor; [exact Hle |].
      rewrite List.Forall_forall in Hall |- *. intros z Hz. specialize (Hall z Hz). lia.
    + constructor.
      * apply IH. intros z Hz. apply Hcmp. right. exact Hz.
      * rewrite List.Forall_forall in Hall |- *. intros z Hz.
        apply insertSorted_In in Hz as [-> | Hz]; [lia | apply Hall, Hz].
Qed.

Lemma sort_sorted (l : list A) :
  (forall a b, In a l -> In b l -> JS.comesBefore compareFn a b = (key a <=? key b)) ->
  StronglySorted (fun a b => key a <= key b) (JS.sort compareFn l).
Proof.
  induction l as [| x l IH]; intros Hcmp; simpl; [constructor |].
  apply insertSorted_sorted.
  - intros y Hy. apply Hcmp; [left; reflexivity | right].
    apply (sort_In compareFn l y), Hy.
  - apply IH. intros a b Ha Hb. apply Hcmp; right; assumption.
Qed.

Lemma insertSorted_stable (k : Z) (x : A) (l : list A) :
  (forall y, In y l -> JS.comesBefore compareFn x y = (key x <=? key y)) ->
  List.filter (fun a => key a =? k) (JS.insertSorted compareFn x l)
  = List.filter (fun a => key a =? k) (x :: l).
Proof.
  induction l as [| y l IH]; intros Hcmp; [reflexivity |].
  simpl. rewrite (Hcmp y (or_introl eq_refl)).
  destruct (Z.leb_spec (key x) (key y)) as [Hle | Hgt]; [reflexivity |].
  simpl. rewrite IH by (intros z Hz; apply Hcmp; right; exact Hz). simpl.
  destruct (Z.eqb_spec (key x) k) as [Hx | Hx], (Z.eqb_spec (key y) k) as [Hy | Hy];
    try reflexivity.
  lia.
Qed.

Lemma sort_stable (k : Z) (l : list A) :
  (forall a b, In a l -> In b l -> JS.comesBefore compareFn a b = (key a <=? key b)) ->
  List.filter (fun a => key a =? k) (JS.sort compareFn l)
  = List.filter (fun a => key a =? k) l.
Proof.
  induction l as [| x l IH]; intros Hcmp; [reflexivity |].
  simpl JS.sort. rewrite insertSorted_stable.
  - simpl. rewrite IH by (intros a b Ha Hb; apply Hcmp; right; assumption). reflexivity.
  - intros y Hy. apply Hcmp; [left; reflexivity | right].
    apply (sort_In compareFn l y), Hy.
Qed.

End SortFacts.

(** X3. Sorting by size.  With the sort key [size-asc] the sizes of the
    output never decrease, with [size-desc] they never increase, and records
    of equal size stay in the order the filter stages left them in, which is
    cache order. *)
Theorem filteredPhotos_sorted_by_size :
  forall h now photos filters searchQuery activeSection activeSource,
    let output sortBy :=
      filteredPhotos h now photos filters searchQuery sortBy activeSection activeSource in
    let unsorted := narrowed h now photos filters searchQuery activeSection activeSource in
    StronglySorted (fun a b => sizeBytes a <= sizeBytes b) (output SortBy.size_asc)
    /\ StronglySorted (fun a b => sizeBytes b <= sizeBytes a) (output SortBy.size_desc)
    /\ (forall size,
           List.filter (fun p => sizeBytes p =? size) (output SortBy.size_asc)
           = List.filter (fun p => sizeBytes p =? size) unsorted
           /\ List.filter (fun p => sizeBytes p =? size) (output SortBy.size_desc)
              = List.filter (fun p => sizeBytes p =? size) unsorted).
Proof.
  intros h now photos filters searchQuery activeSection activeSource output unsorted.
  assert (Hasc : forall a b : Photo,
             JS.comesBefore (compareBy h SortBy.size_asc) a b
             = (sizeBytes a <=? sizeBytes b)).
  { intros a b. unfold JS.comesBefore. simpl.
    destruct (Z.leb_spec (sizeBytes a - sizeBytes b) 0),
             (Z.leb_spec (sizeBytes a) (sizeBytes b)); try reflexivity; lia. }
  assert (Hdesc : forall a b : Photo,
             JS.comesBefore (compareBy h SortBy.size_desc) a b
             = (- sizeBytes a <=? - sizeBytes b)).
  { intros a b. unfold JS.comesBefore. simpl.
    destruct (Z.leb_spec (sizeBytes b - sizeBytes a) 0),
             (Z.leb_spec (- sizeBytes a) (- sizeBytes b)); try reflexivity; lia. }
  split; [| split].
  - apply (sort_sorted _ sizeBytes). intros a b _ _. apply Hasc.
  - pose proof (sort_sorted (compareBy h SortBy.size_desc) (fun p => - sizeBytes p)
                            unsorted (fun a b _ _ => Hdesc a b)) as Hsorted.
    unfold output, filteredPhotos. fold unsorted.
    induction Hsorted as [| p l _ IH Hall]; constructor; [exact IH |].
    rewrite List.Forall_forall in Hall |- *. intros q Hq. specialize (Hall q Hq). lia.
  - intros size. split.
    + apply (sort_stable _ sizeBytes). intros a b _ _. apply Hasc.
    + pose proof (sort_stable (compareBy h SortBy.size_desc) (fun p => - sizeBytes p)
                              (- size) unsorted (fun a b _ _ => Hdesc a b)) as Hstable.
      unfold output, filteredPhotos. fold unsorted.
      erewrite (filter_ext (fun p => sizeBytes p =? size)
                           (fun p => - sizeBytes p =? - size)).
      * rewrite Hstable. apply filter_ext. intros p.
        destruct (Z.eqb_spec (- sizeBytes p) (- size)), (Z.eqb_spec (sizeBytes p) size);
          try reflexivity; lia.
      * intros p.
        destruct (Z.eqb_spec (- sizeBytes p) (- size)), (Z.eqb_spec (sizeBytes p) size);
          try reflexivity; lia.
Qed.

Lemma StronglySorted_weaken {A} (R R' : A -> A -> Prop) (l : list A) :
  (forall a b, In a l -> In b l -> R a b -> R' a b) ->
  StronglySorted R l -> StronglySorted R' l.
Proof.
  intros Himpl Hsorted. induction Hsorted as [| x l _ IH Hall]; constructor.
  - apply IH. intros a b Ha Hb. apply Himpl; right; assumption.
  - rewrite List.Forall_forall in Hall |- *. intros y Hy.
    apply Himpl; [left; reflexivity | right; exact Hy | apply Hall, Hy].
Qed.

(** X4. Sorting by date.  When the effective date of every cached record
    parses, the output under [date-desc] runs from the latest date to the
    earliest and under [date-asc] from the earliest to the latest. *)
Theorem filteredPhotos_sorted_by_date :
  forall h now photos filters searchQuery activeSection activeSource,
    (forall p, In p photos -> JS.newDate h (effectiveDate p) <> None) ->
    let output sortBy :=
      filteredPhotos h now photos filters searchQuery sortBy activeSection activeSource in
    let date p := JS.newDate h (effectiveDate p) in
    StronglySorted (fun a b => JS.geNum (date a) (date b) = true) (output SortBy.date_desc)
    /\ StronglySorted (fun a b => JS.geNum (date b) (date a) = true)
                      (output SortBy.date_asc).
Proof.
  intros h now photos filters searchQuery activeSection activeSource Hvalid output date.
  set (unsorted := narrowed h now photos filters searchQuery activeSection activeSource).
  set (time := fun p : Photo => default 0 (date p)).
  assert (Hdate : forall p, In p unsorted -> date p = Some (time p)).
  { intros p Hp. apply narrowed_keeps, Hvalid in Hp. unfold time. fold (date p) in Hp.
    destruct (date p); [reflexivity | contradiction]. }
  assert (Hdesc : forall a b, In a unsorted -> In b unsorted ->
                              JS.comesBefore (compareBy h SortBy.date_desc) a b
                              = (- time a <=? - time b)).
  { intros a b Ha Hb. unfold JS.comesBefore, compareBy, JS.getTime.
    fold (date a) (date b). rewrite (Hdate a Ha), (Hdate b Hb). simpl.
    destruct (Z.leb_spec (time b - time a) 0), (Z.leb_spec (- time a) (- time b));
      try reflexivity; lia. }
  assert (Hasc : forall a b, In a unsorted -> In b unsorted ->
                             JS.comesBefore (compareBy h SortBy.date_asc) a b
                             = (time a <=? time b)).
  { intros a b Ha Hb. unfold JS.comesBefore, compareBy, JS.getTime.
    fold (date a) (date b). rewrite (Hdate a Ha), (Hdate b Hb). simpl.
    destruct (Z.leb_spec (time a - time b) 0), (Z.leb_spec (time a) (time b));
      try reflexivity; lia. }
  split.
  - apply (StronglySorted_weaken (fun a b => - time a <= - time b)).
    + intros a b Ha Hb Hle. apply sort_In in Ha, Hb.
      rewrite (Hdate a Ha), (Hdate b Hb). simpl. apply Z.leb_le. lia.
    + apply (sort_sorted _ (fun p => - time p)), Hdesc.
  - apply (StronglySorted_weaken (fun a b => time a <= time b)).
    + intros a b Ha Hb Hle. apply sort_In in Ha, Hb.
      rewrite (Hdate a Ha), (Hdate b Hb). simpl. apply Z.leb_le. lia.
    + apply (sort_sorted _ time), Hasc.
Qed.

Lemma filteredPhotos_sorted_by_date_witness :
  StronglySorted
    (fun a b => JS.geNum (JS.newDate JS.utcHost (effectiveDate a))
                         (JS.newDate JS.utcHost (effectiveDate b)) = true)
    (filteredPhotos JS.utcHost noon15March2024 [lastYearPhoto; marchPhoto; holidayVideo]
                    allMedia "" SortBy.date_desc SidebarSection.all None)
  /\ filteredPhotos JS.utcHost noon15March2024 [lastYearPhoto; marchPhoto; holidayVideo]
                    allMedia "" SortBy.date_desc SidebarSection.all None
     = [marchPhoto; holidayVideo; lastYearPhoto].
Proof.
  split; [| vm_compute; reflexivity].
  apply (filteredPhotos_sorted_by_date JS.utcHost noon15March2024
           [lastYearPhoto; marchPhoto; holidayVideo] allMedia "" SidebarSection.all None).
  intros p [<- | [<- | [<- | []]]]; vm_compute; discriminate.
Defined.

(** ** Views after a mutation *)

Lemma removeFromStore_photos (photoIds : list Z) (st : Store) (p : Photo) :
  In p (photos (removeFromStore photoIds st)) -> ~ In (id p) photoIds.
Proof.
  simpl. intros Hin Hmem. apply filter_In in Hin as [_ Hkeep].
  apply negb_true_iff in Hkeep. unfold JS.arrayIncludesNum in Hkeep.
  assert (Hex : existsb (Z.eqb (id p)) photoIds = true).
  { apply existsb_exists. exists (id p). split; [exact Hmem | apply Z.eqb_refl]. }
  congruence.
Qed.

(** X5. A mutation shows in every view.  After a resolved [deletePhotos] or
    [hardDeletePhotos] no section, filter, query or sort key shows a record
    with one of the deleted ids; after [toggleFavorite] resolved to [false]
    the favorites section shows no record with that id; after a resolved
    [renamePhoto] every shown record with that id carries the new file
    name. *)
Theorem views_follow_mutations :
  forall h now filters searchQuery sortBy activeSection activeSource st,
    let view cache :=
      filteredPhotos h now cache filters searchQuery sortBy activeSection activeSource in
    (forall photoIds,
        Forall (fun p => ~ In (id p) photoIds)
               (view (photos (deletePhotos (Resolved tt) photoIds st))))
    /\ (forall photoIds deleteFromDisk,
           Forall (fun p => ~ In (id p) photoIds)
                  (view (photos (hardDeletePhotos (Resolved tt) photoIds deleteFromDisk st))))
    /\ (forall photoId,
           Forall (fun p => id p <> photoId)
                  (filteredPhotos h now (photos (fst (toggleFavorite (Resolved false) photoId st)))
                                  filters searchQuery sortBy SidebarSection.favorites
                                  activeSource))
    /\ (forall photoId newFilename newPath,
           Forall (fun p => id p = photoId -> filename p = newFilename)
                  (view (photos (renamePhoto (Resolved newPath) photoId newFilename st)))).
Proof.
  intros h now filters searchQuery sortBy activeSection activeSource st view.
  split; [| split; [| split]].
  - intros photoIds. apply List.Forall_forall. intros p Hin.
    unfold view, filteredPhotos in Hin. apply sort_In, narrowed_keeps in Hin.
    apply (removeFromStore_photos photoIds st p Hin).
  - intros photoIds deleteFromDisk. apply List.Forall_forall. intros p Hin.
    unfold view, filteredPhotos in Hin. apply sort_In, narrowed_keeps in Hin.
    apply (removeFromStore_photos photoIds st p Hin).
  - intros photoId. apply List.Forall_forall. intros p Hin Hid.
    pose proof (filteredPhotos_section _ _ _ _ _ _ _ _ _ Hin) as Hfav.
    simpl in Hfav. apply filter_In in Hfav as [_ Hfav].
    unfold filteredPhotos in Hin. apply sort_In, narrowed_keeps in Hin.
    simpl in Hin. apply in_map_iff in Hin as (q & Hq & _).
    destruct (Z.eqb_spec (id q) photoId) as [_ | Hne]; subst p.
    + simpl in Hfav. discriminate.
    + contradiction.
  - intros photoId newFilename newPath. apply List.Forall_forall. intros p Hin Hid.
    unfold view, filteredPhotos in Hin. apply sort_In, narrowed_keeps in Hin.
    simpl in Hin. apply in_map_iff in Hin as (q & Hq & _).
    destruct (Z.eqb_spec (id q) photoId) as [_ | Hne]; subst p; [reflexivity |].
    contradiction.
Qed.

Example unfavorited_leaves_favorites :
  let st := set_photos [withFavorite holidayPhoto true; withFavorite marchPhoto true]
                       initialStore in
  map id (filteredPhotos JS.utcHost noon15March2024
            (photos (fst (toggleFavorite (Resolved false) 1 st)))
            allMedia "" SortBy.date_desc SidebarSection.favorites None)
  = [4].
Proof. vm_compute. reflexivity. Qed.

(** ** Selection *)

(** X6. Toggling an id flips its membership in the selection and no other;
    toggling it twice gives the selection back. *)
Theorem togglePhotoSelection_flips :
  forall photoId st,
    let st' := togglePhotoSelection photoId st in
    (photoId ∈ selectedPhotoIds st' <-> photoId ∉ selectedPhotoIds st)
    /\ (forall other, other <> photoId ->
                      (other ∈ selectedPhotoIds st' <-> other ∈ selectedPhotoIds st))
    /\ selectedPhotoIds (togglePhotoSelection photoId st') = selectedPhotoIds st.
Proof.
  intros photoId st st'. subst st'. unfold togglePhotoSelection. simpl.
  destruct (decide (photoId ∈ selectedPhotoIds st)) as [Hin | Hout].
  - rewrite (bool_decide_eq_true_2 _ Hin).
    split; [set_solver |]. split; [set_solver |].
    rewrite bool_decide_eq_false_2 by set_solver.
    apply set_eq. intros x. destruct (decide (x = photoId)); set_solver.
  - rewrite (bool_decide_eq_false_2 _ Hout).
    split; [set_solver |]. split; [set_solver |].
    rewrite bool_decide_eq_true_2 by set_solver.
    set_solver.
Qed.

Lemma togglePhotoSelection_flips_witness :
  (7 ∈ selectedPhotoIds (togglePhotoSelection 3 sampleStore)
   <-> 7 ∈ selectedPhotoIds sampleStore)
  /\ 3 ∉ selectedPhotoIds (togglePhotoSelection 3 sampleStore).
Proof.
  destruct (togglePhotoSelection_flips 3 sampleStore) as (Hflip & Hothers & _).
  split; [apply Hothers; discriminate |].
  intros Hin. apply (proj1 Hflip Hin). simpl. set_solver.
Defined.

(** X7. [selectAllPhotos] selects the ids of the filtered photos and nothing
    else, so every selected id is the id of a cached record, and it leaves
    the multi-select flag alone. *)
Theorem selectAllPhotos_exact :
  forall h now filters searchQuery sortBy activeSection activeSource st,
    let all := filteredPhotos h now (photos st) filters searchQuery sortBy activeSection
                              activeSource in
    let st' := selectAllPhotos all st in
    (forall i, i ∈ selectedPhotoIds st' <-> In i (map id all))
    /\ (forall i, i ∈ selectedPhotoIds st' -> In i (map id (photos st)))
    /\ isMultiSelectMode st' = isMultiSelectMode st.
Proof.
  intros h now filters searchQuery sortBy activeSection activeSource st all st'.
  assert (Hexact : forall i, i ∈ selectedPhotoIds st' <-> In i (map id all)).
  { intros i. subst st'. simpl. rewrite elem_of_list_to_set. apply list_elem_of_In. }
  split; [exact Hexact |]. split; [| reflexivity].
  intros i Hi. apply Hexact, in_map_iff in Hi as (p & <- & Hp).
  apply in_map. unfold all, filteredPhotos in Hp.
  apply sort_In, narrowed_keeps in Hp. exact Hp.
Qed.

Lemma selectAllPhotos_exact_witness :
  (2 : Z) ∈ selectedPhotoIds
              (selectAllPhotos
                 (filteredPhotos JS.utcHost noon15March2024
                                 [holidayPhoto; holidayVideo; lastYearPhoto] allMedia ""
                                 SortBy.date_desc SidebarSection.videos None)
                 (set_photos [holidayPhoto; holidayVideo; lastYearPhoto] initialStore)).
Proof.
  apply (proj1 (selectAllPhotos_exact JS.utcHost noon15March2024 allMedia ""
                  SortBy.date_desc SidebarSection.videos None
                  (set_photos [holidayPhoto; holidayVideo; lastYearPhoto] initialStore))).
  vm_compute. auto.
Defined.




(** ** Commands on the cache *)

Lemma filter_all {A} (f : A -> bool) (l : list A) :
  (forall x, In x l -> f x = true) -> List.filter f l = l.
Proof.
  induction l as [| x l IH]; intros Hall; simpl; [reflexivity |].
  rewrite (Hall x (or_introl eq_refl)), IH; [reflexivity |].
  intros y Hy. apply Hall. right. exact Hy.
Qed.

Lemma arrayIncludesNum_app (a b : list Z) (n : Z) :
  JS.arrayIncludesNum (a ++ b) n = JS.arrayIncludesNum a n || JS.arrayIncludesNum b n.
Proof. unfold JS.arrayIncludesNum. apply existsb_app. Qed.

Lemma filter_filter {A} (f g : A -> bool) (l : list A) :
  List.filter g (List.filter f l) = List.filter (fun x => f x && g x) l.
Proof.
  induction l as [| x l IH]; simpl; [reflexivity |].
  destruct (f x); simpl; [destruct (g x) |]; rewrite IH; reflexivity.
Qed.

(** X9. Deleting composes.  A resolved [deletePhotos] of no ids changes
    nothing; two resolved deletes in a row leave the store that one delete of
    both id lists leaves. *)
Theorem deletePhotos_composes :
  forall st,
    deletePhotos (Resolved tt) [] st = st
    /\ (forall ids1 ids2,
           deletePhotos (Resolved tt) ids2 (deletePhotos (Resolved tt) ids1 st)
           = deletePhotos (Resolved tt) (ids1 ++ ids2) st).
Proof.
  intros st. split.
  - destruct st as [cache selected more loading total dirs ids mode].
    unfold deletePhotos, removeFromStore, set_photos, set_selectedPhoto. simpl.
    rewrite filter_all by reflexivity. destruct selected; reflexivity.
  - intros ids1 ids2. unfold deletePhotos, removeFromStore, set_photos, set_selectedPhoto.
    simpl. f_equal.
    + rewrite filter_filter. apply filter_ext. intros p.
      rewrite arrayIncludesNum_app, negb_orb. reflexivity.
    + destruct (selectedPhoto st) as [p |]; [| reflexivity].
      rewrite arrayIncludesNum_app.
      destruct (JS.arrayIncludesNum ids1 (id p)); simpl; [reflexivity |].
      reflexivity.
Qed.

Lemma map_unchanged {A} (f : A -> A) (l : list A) :
  (forall x, In x l -> f x = x) -> map f l = l.
Proof.
  intros Hid. rewrite <- (map_id l) at 2. apply map_ext_in, Hid.
Qed.

(** X10. Updates in place.  A resolved [toggleFavorite] or [renamePhoto]
    keeps the ids of the cache, in order, and leaves every record with another
    id as it was; when no cached record and no selected photo has the id, the
    store comes back unchanged. *)
Theorem updates_in_place :
  forall isFav newPath photoId newFilename st,
    let favored := fst (toggleFavorite (Resolved isFav) photoId st) in
    let renamed := renamePhoto (Resolved newPath) photoId newFilename st in
    map id (photos favored) = map id (photos st)
    /\ map id (photos renamed) = map id (photos st)
    /\ (forall p, In p (photos st) -> id p <> photoId ->
                  In p (photos favored) /\ In p (photos renamed))
    /\ (~ In photoId (map id (photos st)) ->
        (forall p, selectedPhoto st = Some p -> id p <> photoId) ->
        favored = st /\ renamed = st).
Proof.
  intros isFav newPath photoId newFilename st favored renamed.
  split; [| split; [| split]].
  - subst favored. simpl. rewrite map_map. apply map_ext. intros p.
    destruct (id p =? photoId); reflexivity.
  - subst renamed. simpl. rewrite map_map. apply map_ext. intros p.
    destruct (id p =? photoId); reflexivity.
  - intros p Hin Hne. apply Z.eqb_neq in Hne. split.
    + subst favored. simpl. apply in_map_iff. exists p. rewrite Hne. auto.
    + subst renamed. simpl. apply in_map_iff. exists p. rewrite Hne. auto.
  - intros Hcache Hselected.
    assert (Hother : forall p, In p (photos st) -> (id p =? photoId) = false).
    { intros p Hp. apply Z.eqb_neq. intros Heq. apply Hcache. rewrite <- Heq.
      apply in_map, Hp. }
    subst favored renamed. unfold toggleFavorite, renamePhoto. simpl.
    rewrite !map_unchanged by (intros p Hp; rewrite (Hother p Hp); reflexivity).
    destruct st as [cache selected more loading total dirs ids mode]. simpl in *.
    unfold set_selectedPhoto, set_photos. simpl.
    destruct selected as [p |]; [| split; reflexivity].
    specialize (Hselected p eq_refl). apply Z.eqb_neq in Hselected.
    rewrite Hselected. split; reflexivity.
Qed.

Lemma updates_in_place_witness :
  fst (toggleFavorite (Resolved true) 250 sampleStore) = sampleStore
  /\ renamePhoto (Resolved "/library/x.jpg") 250 "x.jpg" sampleStore = sampleStore.
Proof.
  apply (updates_in_place true "/library/x.jpg" 250 "x.jpg" sampleStore).
  - vm_compute. intuition discriminate.
  - intros p [= <-]. vm_compute. discriminate.
Defined.

(** ** Paging through a listing *)

Lemma firstn_add {A} (a b : nat) (l : list A) :
  firstn (a + b) l = firstn a l ++ firstn b (skipn a l).
Proof.
  revert l. induction a as [| a IH]; intros l; [reflexivity |].
  destruct l as [| x l]; simpl; [destruct b; reflexivity |].
  rewrite IH. reflexivity.
Qed.

Lemma runLoadMore_repeat_S backend n st :
  runLoadMore (repeat backend (S n)) st
  = loadMorePhotos backend (runLoadMore (repeat backend n) st).
Proof.
  revert st. induction n as [| n IH]; intros st; [reflexivity |].
  change (repeat backend (S (S n))) with (backend :: repeat backend (S n)).
  rewrite runLoadMore_cons, IH. reflexivity.
Qed.

(** One call against the listing, from an idle store with more to load
    whose cache fits the cap. *)
Lemma loadMorePhotos_listing (records : list Photo) (st : Store) :
  isLoadingMore st = false -> hasMorePhotos st = true ->
  (length (photos st) <= 2000)%nat ->
  let page := firstn 100 (skipn (length (photos st)) records) in
  let st' := loadMorePhotos (listingBackend records) st in
  photos st' = lastn 2000 (photos st ++ page)
  /\ hasMorePhotos st' = (100 <=? length page)%nat
  /\ isLoadingMore st' = false.
Proof.
  intros Hidle Hmore Hfits page st'. subst st'.
  unfold loadMorePhotos, listingBackend, loadMorePhotos_settled.
  rewrite Hidle, Hmore. cbn [orb negb].
  change (Z.to_nat PAGE_SIZE) with 100%nat.
  replace (Z.to_nat (arrayLength (photos (set_isLoadingMore true st))))
    with (length (photos st)) by (unfold arrayLength; simpl; lia).
  fold page.
  destruct (Z.eqb_spec (arrayLength page) 0) as [H0 | Hne].
  - assert (Hnil : page = [])
      by (destruct page; [reflexivity | unfold arrayLength in H0; simpl in H0; lia]).
    rewrite Hnil. simpl. rewrite app_nil_r, lastn_all by exact Hfits. auto.
  - cbn [photos hasMorePhotos isLoadingMore set_photos set_hasMorePhotos set_isLoadingMore].
    rewrite appendPage_lastn. split; [reflexivity |]. split; [| reflexivity].
    unfold PAGE_SIZE, arrayLength. clear.
    destruct (Z.leb_spec 100 (Z.of_nat (length page))),
             (Nat.leb_spec 100 (length page)); try reflexivity; lia.
Qed.

(** While the pages fetched so far fit the cap, the cache is the listing
    up to the last page fetched. *)
Lemma paged_prefix records count libs st n :
  isLoadingMore st = false ->
  (Nat.min (100 * S n) (length records) <= 2000)%nat ->
  let st' := paged records count libs st n in
  photos st' = firstn (100 * S n) records
  /\ hasMorePhotos st' = (100 * S n <=? length records)%nat
  /\ isLoadingMore st' = false.
Proof.
  intros Hidle. induction n as [| n IH]; intros Hfits st'; subst st'.
  - unfold paged. cbn [repeat runLoadMore fold_left].
    unfold loadAllPhotos, listingBackend.
    change (Z.to_nat PAGE_SIZE) with 100%nat. change (Z.to_nat 0) with 0%nat.
    cbn [skipn orEmpty default].
    assert (Hmore : (PAGE_SIZE <=? arrayLength (firstn 100 records))
                    = (100 * 1 <=? length records)%nat).
    { unfold PAGE_SIZE, arrayLength. rewrite length_firstn.
      destruct (Z.leb_spec 100 (Z.of_nat (Nat.min 100 (length records)))),
               (Nat.leb_spec (100 * 1) (length records)); try reflexivity; lia. }
    destruct count, libs as [[libs' |] | ?]; simpl photos; simpl hasMorePhotos;
      simpl isLoadingMore; rewrite skipn_O, Hmore; auto.
  - unfold paged in *. rewrite runLoadMore_repeat_S.
    destruct IH as (Hphotos & Hmore & Hidle'); [lia |].
    set (prev := runLoadMore _ _) in *.
    destruct (Nat.leb_spec (100 * S n) (length records)) as [Hle | Hgt].
    + assert (Hlen : length (photos prev) = (100 * S n)%nat)
        by (rewrite Hphotos, length_firstn; lia).
      destruct (loadMorePhotos_listing records prev Hidle' Hmore) as (Hp & Hm & Hl);
        [lia |].
      rewrite Hp, Hm, Hl, Hlen, Hphotos.
      replace (100 * S (S n))%nat with (100 * S n + 100)%nat by lia.
      rewrite <- firstn_add. split; [| split; [| reflexivity]].
      * apply lastn_all. rewrite length_firstn. lia.
      * rewrite length_firstn, length_skipn.
        destruct (Nat.leb_spec 100 (Nat.min 100 (length records - 100 * S n))),
                 (Nat.leb_spec (100 * S n + 100) (length records));
          try reflexivity; lia.
    + rewrite loadMorePhotos_closed by (rewrite Hmore; apply orb_true_r).
      rewrite Hphotos, Hmore, Hidle'.
      rewrite !firstn_all2 by lia.
      split; [reflexivity |]. split; [| reflexivity].
      symmetry. apply Nat.leb_gt. lia.
Qed.

(** X11. Paging loads a listing that fits the cache.  For a backend serving
    a listing of at most 2000 records, [loadAllPhotos] followed by [n] calls
    of [loadMorePhotos] caches the first [100 (n + 1)] records in listing
    order and keeps [hasMorePhotos] true exactly while a full page has come
    back; once [100 (n + 1)] exceeds the length of the listing the cache is
    the whole listing and the pagination has stopped. *)
Theorem paging_loads_the_listing :
  forall records count libs st n,
    isLoadingMore st = false ->
    (length records <= 2000)%nat ->
    let st' := paged records count libs st n in
    photos st' = firstn (100 * S n) records
    /\ hasMorePhotos st' = (100 * S n <=? length records)%nat
    /\ isLoadingMore st' = false
    /\ ((length records < 100 * S n)%nat ->
        photos st' = records /\ hasMorePhotos st' = false).
Proof.
  intros records count libs st n Hidle Hfits st'.
  destruct (paged_prefix records count libs st n Hidle) as (Hphotos & Hmore & Hidle'); [lia |].
  fold st' in Hphotos, Hmore, Hidle'.
  split; [exact Hphotos |]. split; [exact Hmore |]. split; [exact Hidle' |].
  intros Hdone. rewrite Hphotos, Hmore. split.
  - apply firstn_all2. lia.
  - apply Nat.leb_gt. exact Hdone.
Qed.

Lemma paging_loads_the_listing_witness :
  let records := map fetched (seqZ 0 240) in
  let st := paged records (Resolved 240) (Rejected "offline") initialStore 2 in
  photos st = records /\ hasMorePhotos st = false.
Proof.
  intros records st.
  destruct (paging_loads_the_listing records (Resolved 240) (Rejected "offline")
              initialStore 2) as (_ & _ & _ & Hdone).
  - reflexivity.
  - vm_compute. lia.
  - apply Hdone. vm_compute. lia.
Defined.

Lemma firstn_prefix_In {A} (a b : nat) (l : list A) (x : A) :
  (a <= b)%nat -> In x (firstn a l) -> In x (firstn b l).
Proof.
  intros Hle Hin. replace b with (a + (b - a))%nat by lia.
  rewrite firstn_add. apply in_or_app. left. exact Hin.
Qed.

Lemma lastn_In {A} (n : nat) (l : list A) (x : A) : In x (lastn n l) -> In x l.
Proof.
  unfold lastn. intros Hin. rewrite <- (firstn_skipn (length l - n) l).
  apply in_or_app. right. exact Hin.
Qed.

Lemma page_within {A} (off : nat) (l : list A) (x : A) :
  (off <= 2000)%nat -> In x (firstn 100 (skipn off l)) -> In x (firstn 2100 l).
Proof.
  intros Hoff Hin. apply (firstn_prefix_In (off + 100) 2100); [lia |].
  rewrite firstn_add. apply in_or_app. right. exact Hin.
Qed.

Lemma concat_repeat_snoc {A} (page : list A) (m : nat) :
  concat (repeat page m) ++ page = concat (repeat page (S m)).
Proof.
  induction m as [| m IH]; simpl; [symmetry; apply app_nil_r |].
  simpl in IH. rewrite <- app_assoc, IH. reflexivity.
Qed.

Lemma loadMorePhotos_withinWindow records st :
  withinWindow records st ->
  withinWindow records (loadMorePhotos (listingBackend records) st).
Proof.
  intros [Hfits Hwithin]. unfold loadMorePhotos.
  destruct (isLoadingMore st || negb (hasMorePhotos st)); [split; assumption |].
  unfold listingBackend, loadMorePhotos_settled.
  change (Z.to_nat PAGE_SIZE) with 100%nat.
  replace (Z.to_nat (arrayLength (photos (set_isLoadingMore true st))))
    with (length (photos st)) by (unfold arrayLength; simpl; lia).
  destruct (arrayLength _ =? 0); [split; assumption |].
  split; simpl photos.
  - pose proof (appendPage_length (firstn 100 (skipn (length (photos st)) records))
                                  (photos st)) as Hlen.
    unfold arrayLength, MAX_PHOTOS_IN_MEMORY in Hlen. lia.
  - intros p Hp. rewrite appendPage_lastn in Hp. apply lastn_In, in_app_or in Hp.
    destruct Hp as [Hp | Hp]; [apply Hwithin, Hp |].
    apply (page_within (length (photos st))); assumption.
Qed.

(** X12. Paging stops at the cap.  [loadMorePhotos] asks for the offset
    equal to the length of the cache, which eviction holds at 2000: served
    from a listing, no record past position 2100 of the listing is ever
    cached, and for a listing of 2100 records or more every call after the
    twentieth page appends records 2000 to 2099 again, with [hasMorePhotos]
    still true. *)
Theorem paging_stops_at_the_cap :
  forall records count libs st,
    isLoadingMore st = false ->
    (forall n, Forall (fun p => In p (firstn 2100 records))
                      (photos (paged records count libs st n)))
    /\ ((2100 <= length records)%nat ->
        forall m,
          let st' := paged records count libs st (19 + m) in
          let again := firstn 100 (skipn 2000 records) in
          photos st' = lastn 2000 (firstn 2000 records ++ concat (repeat again m))
          /\ hasMorePhotos st' = true
          /\ isLoadingMore st' = false).
Proof.
  intros records count libs st Hidle. split.
  - intros n. apply List.Forall_forall.
    assert (Hwindow : withinWindow records (paged records count libs st n)).
    { induction n as [| n IH].
      - destruct (paged_prefix records count libs st 0 Hidle) as (Hphotos & _);
          [apply Nat.le_trans with (100 * 1)%nat; [apply Nat.le_min_l | lia] |].
        split.
        + rewrite Hphotos, length_firstn. lia.
        + intros p Hp. rewrite Hphotos in Hp.
          apply (firstn_prefix_In (100 * 1) 2100); [lia | exact Hp].
      - unfold paged in *. rewrite runLoadMore_repeat_S.
        apply loadMorePhotos_withinWindow, IH. }
    apply Hwindow.
  - intros Hlong m. cbv zeta. induction m as [| m IH].
    + destruct (paged_prefix records count libs st 19 Hidle) as (Hphotos & Hmore & Hidle');
        [apply Nat.le_trans with (100 * 20)%nat; [apply Nat.le_min_l | lia] |].
      change (19 + 0)%nat with 19%nat.
      rewrite Hphotos, Hmore, Hidle'. cbn [repeat concat]. rewrite app_nil_r.
      change (100 * 20)%nat with 2000%nat.
      split; [| split; [apply Nat.leb_le; lia | reflexivity]].
      symmetry. apply lastn_all. rewrite length_firstn. lia.
    + destruct IH as (Hphotos & Hmore & Hidle').
      replace (19 + S m)%nat with (S (19 + m)) by lia.
      unfold paged in *. rewrite runLoadMore_repeat_S.
      set (prev := runLoadMore _ _) in *.
      assert (Hlen : length (photos prev) = 2000%nat).
      { rewrite Hphotos. unfold lastn. rewrite length_skipn, length_app, length_firstn. lia. }
      destruct (loadMorePhotos_listing records prev Hidle' Hmore) as (Hp & Hm & Hl); [lia |].
      rewrite Hp, Hm, Hl, Hlen, Hphotos.
      rewrite lastn_app_lastn, <- app_assoc, concat_repeat_snoc.
      split; [reflexivity |]. split; [| reflexivity].
      apply Nat.leb_le. rewrite length_firstn, length_skipn. lia.
Qed.

Lemma paging_stops_at_the_cap_witness :
  let records := map fetched (seqZ 0 2500) in
  map id (skipn 1800 (photos (paged records (Resolved 2500) (Rejected "offline")
                                    initialStore 21)))
  = seqZ 2000 100 ++ seqZ 2000 100.
Proof.
  intros records.
  destruct (paging_stops_at_the_cap records (Resolved 2500) (Rejected "offline")
              initialStore eq_refl) as [_ Hagain].
  destruct (Hagain ltac:(vm_compute; lia) 2%nat) as (Hphotos & _).
  change (19 + 2)%nat with 21%nat in Hphotos. rewrite Hphotos.
  vm_compute. reflexivity.
Defined.

(** ** Category stores *)

Section SetFacts.
Context {A : Type} (same : A -> A -> bool).
Hypothesis same_eq : forall x y, same x y = true <-> x = y.

Lemma JSSet_has_In (x : A) (s : list A) : JSSet.has same x s = true <-> In x s.
Proof.
  unfold JSSet.has. rewrite existsb_exists. split.
  - intros (y & Hy & Heq). apply same_eq in Heq. subst. exact Hy.
  - intros Hin. exists x. split; [exact Hin | apply same_eq; reflexivity].
Qed.

Lemma JSSet_add_In (x y : A) (s : list A) : In y (JSSet.add same x s) <-> y = x \/ In y s.
Proof.
  unfold JSSet.add. destruct (JSSet.has same x s) eqn:Hhas.
  - apply JSSet_has_In in Hhas. split; [auto |]. intros [-> | Hin]; assumption.
  - rewrite in_app_iff. simpl. intuition congruence.
Qed.

Lemma JSSet_add_NoDup (x : A) (s : list A) :
  List.NoDup s -> List.NoDup (JSSet.add same x s).
Proof.
  intros Hnodup. unfold JSSet.add. destruct (JSSet.has same x s) eqn:Hhas; [exact Hnodup |].
  assert (Hfresh : ~ In x s) by (rewrite <- JSSet_has_In, Hhas; discriminate).
  apply List.NoDup_rev in Hnodup. rewrite <- (rev_involutive (s ++ [x])).
  apply List.NoDup_rev. rewrite rev_app_distr. simpl. constructor; [| exact Hnodup].
  rewrite <- in_rev. exact Hfresh.
Qed.

(** A loop that adds [pick p] to a set for the elements [p] that have one. *)
Lemma JSSet_collect {B} (pick : B -> option A) (step : list A -> B -> list A)
    (l : list B) (s : list A) :
  (forall s p, step s p = match pick p with
                          | Some v => JSSet.add same v s
                          | None => s
                          end) ->
  List.NoDup s ->
  List.NoDup (fold_left step l s)
  /\ forall v, In v (fold_left step l s)
               <-> In v s \/ exists p, In p l /\ pick p = Some v.
Proof.
  intros Hstep. revert s. induction l as [| p l IH]; intros s Hnodup; simpl.
  - split; [exact Hnodup |]. intros v. split; [auto |]. intros [Hin | (p & [] & _)]. exact Hin.
  - assert (Hnodup' : List.NoDup (step s p)).
    { rewrite Hstep. destruct (pick p); [apply JSSet_add_NoDup |]; exact Hnodup. }
    destruct (IH (step s p) Hnodup') as [Hnd Hmem]. split; [exact Hnd |].
    intros v. rewrite Hmem, Hstep. destruct (pick p) as [w |] eqn:Hpick.
    + rewrite JSSet_add_In. split.
      * intros [[-> | Hin] | (q & Hq & Hpq)]; eauto 6.
      * intros [Hin | (q & [<- | Hq] & Hpq)]; eauto 6.
        left. left. congruence.
    + split.
      * intros [Hin | (q & Hq & Hpq)]; eauto 6.
      * intros [Hin | (q & [<- | Hq] & Hpq)]; eauto 6. congruence.
Qed.

Lemma JSSet_ofArray_In (arr : list A) (x : A) :
  In x (JSSet.ofArray same arr) <-> In x arr.
Proof.
  unfold JSSet.ofArray.
  destruct (JSSet_collect Some (fun s x => JSSet.add same x s) arr [])
    as [_ Hmem]; [reflexivity | constructor |].
  rewrite Hmem. split.
  - intros [[] | (p & Hp & [= ->])]. exact Hp.
  - intros Hin. right. eauto.
Qed.

End SetFacts.

Lemma sameNumber_eq (x y : option Z) : sameNumber x y = true <-> x = y.
Proof.
  destruct x as [a |], y as [b |]; simpl; try (split; congruence).
  rewrite Z.eqb_eq. split; congruence.
Qed.

Lemma string_eqb_eq (x y : string) : String.eqb x y = true <-> x = y.
Proof. apply String.eqb_eq. Qed.

(** X13. The [years] store lists each year of the cache once: a year is
    listed exactly when some cached record has it.  A listed year other than
    [0], once selected, keeps at least one cached record in the year stage;
    the year [0] is listed like any other but selecting it filters
    nothing. *)
Theorem years_lists_the_cache :
  forall h photos,
    List.NoDup (years h photos)
    /\ (forall year, In year (years h photos) <-> exists p, In p photos /\ yearOf h p = year)
    /\ (forall y filters,
           In (Some y) (years h photos) -> selectedYear filters = Some y -> y <> 0 ->
           yearStage h filters photos <> [])
    /\ (forall filters, selectedYear filters = Some 0 -> yearStage h filters photos = photos).
Proof.
  intros h photos.
  destruct (JSSet_collect sameNumber sameNumber_eq (fun p => Some (yearOf h p))
              (fun yearsSet p => JSSet.add sameNumber (yearOf h p) yearsSet) photos [])
    as [Hnodup Hmem]; [reflexivity | constructor |].
  assert (Hlisted : forall year,
             In year (years h photos) <-> exists p, In p photos /\ yearOf h p = year).
  { intros year. unfold years. rewrite sort_In, Hmem. split.
    - intros [[] | (p & Hp & [= <-])]. eauto.
    - intros (p & Hp & <-). right. eauto. }
  split; [| split; [exact Hlisted | split]].
  - unfold years. eapply Permutation_NoDup; [| exact Hnodup].
    symmetry. apply sort_Permutation.
  - intros y filters Hin Hsel Hne Hempty.
    apply Hlisted in Hin as (p & Hp & Hyear).
    assert (Hkept : In p (yearStage h filters photos)).
    { unfold yearStage. rewrite Hsel. simpl. apply Z.eqb_neq in Hne. rewrite Hne. simpl.
      apply filter_In. split; [exact Hp |]. rewrite Hyear. simpl. apply Z.eqb_refl. }
    rewrite Hempty in Hkept. exact Hkept.
  - intros filters Hsel. unfold yearStage. rewrite Hsel. reflexivity.
Qed.

Lemma years_lists_the_cache_witness :
  years JS.utcHost [holidayPhoto; holidayVideo; lastYearPhoto; marchPhoto]
  = [Some 2024; Some 2023]
  /\ yearStage JS.utcHost january2024 [holidayPhoto; holidayVideo; lastYearPhoto; marchPhoto]
     <> [].
Proof.
  split; [vm_compute; reflexivity |].
  destruct (years_lists_the_cache JS.utcHost
              [holidayPhoto; holidayVideo; lastYearPhoto; marchPhoto])
    as (_ & _ & Hkeeps & _).
  apply (Hkeeps 2024); [vm_compute; auto | reflexivity | lia].
Defined.

Lemma getMonth_range (h : JS.Host) (date : option Z) (m : Z) :
  JS.getMonth h date = Some m -> 0 <= m <= 11.
Proof.
  destruct date as [t |]; simpl; [| discriminate]. intros [= <-].
  unfold JS.MonthFromTime.
  pose proof (civilFromDays_month_range (JS.Day (JS.LocalTime h t))). lia.
Qed.

(** X14. The [months] store.  Without a truthy selected year it is empty.
    Otherwise it lists, once each and in ascending order, the zero-indexed
    months (0 to 11) in which some cached record of the selected year falls:
    selecting a listed month keeps at least that record, and the month of
    every cached record of the selected year is listed. *)
Theorem months_of_the_selected_year :
  forall h photos filters,
    let date p := JS.newDate h (effectiveDate p) in
    (JS.truthyNullableNumber (selectedYear filters) = false -> months h photos filters = [])
    /\ List.NoDup (months h photos filters)
    /\ StronglySorted (fun a b => JS.geNum b a = true) (months h photos filters)
    /\ (forall month,
           In month (months h photos filters) ->
           exists m p, month = Some m /\ 0 <= m <= 11 /\ In p photos
                       /\ monthMatches h (withMonth filters (Some m)) p = true)
    /\ (forall y m p,
           selectedYear filters = Some y -> y <> 0 -> In p photos ->
           JS.getFullYear h (date p) = Some y -> JS.getMonth h (date p) = Some m ->
           In (Some m) (months h photos filters)).
Proof.
  intros h photos filters date.
  set (pick := fun p : Photo =>
                 if JS.strictEq (JS.getFullYear h (date p)) (selectedYear filters)
                 then Some (JS.getMonth h (date p)) else None).
  destruct (JSSet_collect sameNumber sameNumber_eq pick
              (fun monthsSet p =>
                 let date := JS.newDate h (effectiveDate p) in
                 if JS.strictEq (JS.getFullYear h date) (selectedYear filters)
                 then JSSet.add sameNumber (JS.getMonth h date) monthsSet
                 else monthsSet) photos [])
    as [Hnodup Hmem].
  { intros s p. unfold pick, date. cbv zeta.
    destruct (JS.strictEq _ _); reflexivity. }
  { constructor. }
  set (monthsSet := fold_left _ photos []) in *.
  assert (Hvalid : forall month, In month monthsSet ->
                                 exists m p, month = Some m /\ 0 <= m <= 11 /\ In p photos
                                             /\ monthMatches h (withMonth filters (Some m)) p
                                                = true).
  { intros month Hin. apply Hmem in Hin as [[] | (p & Hp & Hpick)].
    unfold pick in Hpick.
    destruct (JS.strictEq (JS.getFullYear h (date p)) (selectedYear filters)) eqn:Hyear;
      [| discriminate].
    injection Hpick as <-.
    destruct (date p) as [t |] eqn:Hdate; [| discriminate].
    exists (JS.MonthFromTime (JS.LocalTime h t)), p.
    split; [reflexivity |].
    split; [apply (getMonth_range h (Some t)); reflexivity |].
    split; [exact Hp |].
    unfold monthMatches. fold (date p). rewrite Hdate. simpl.
    simpl in Hyear. rewrite Hyear, Z.eqb_refl. reflexivity. }
  destruct (JS.truthyNullableNumber (selectedYear filters)) eqn:Htruthy.
  - assert (Hmonths : months h photos filters = JS.sort (fun a b => JS.subNum a b) monthsSet).
    { unfold months. rewrite Htruthy. reflexivity. }
    rewrite Hmonths.
    split; [discriminate |]. split; [| split; [| split]].
    + eapply Permutation_NoDup; [| exact Hnodup]. symmetry. apply sort_Permutation.
    + apply (StronglySorted_weaken (fun a b => default 0 a <= default 0 b)).
      * intros a b Ha Hb Hle. apply sort_In in Ha, Hb.
        destruct (Hvalid a Ha) as (ma & _ & -> & _), (Hvalid b Hb) as (mb & _ & -> & _).
        simpl in *. apply Z.leb_le. exact Hle.
      * apply (sort_sorted _ (default 0)). intros a b Ha Hb.
        destruct (Hvalid a Ha) as (ma & _ & -> & _), (Hvalid b Hb) as (mb & _ & -> & _).
        unfold JS.comesBefore. simpl.
        destruct (Z.leb_spec (ma - mb) 0), (Z.leb_spec ma mb); try reflexivity; lia.
    + intros month Hin. apply sort_In in Hin. apply Hvalid, Hin.
    + intros y m p Hsel Hne Hp Hyear Hmonth. apply sort_In, Hmem. right.
      exists p. split; [exact Hp |]. unfold pick. rewrite Hyear, Hsel, Hmonth. simpl.
      rewrite Z.eqb_refl. reflexivity.
  - assert (Hmonths : months h photos filters = []).
    { unfold months. rewrite Htruthy. reflexivity. }
    rewrite Hmonths.
    split; [reflexivity |]. split; [constructor |]. split; [constructor |].
    split; [intros month [] |].
    intros y m p Hsel Hne. rewrite Hsel in Htruthy. simpl in Htruthy.
    apply Z.eqb_neq in Hne. rewrite Hne in Htruthy. discriminate.
Qed.

Lemma months_of_the_selected_year_witness :
  months JS.utcHost [marchPhoto; holidayPhoto; holidayVideo; lastYearPhoto] january2024
  = [Some 0; Some 2]
  /\ In (Some 2)
        (months JS.utcHost [marchPhoto; holidayPhoto; holidayVideo; lastYearPhoto]
                january2024)
  /\ months JS.utcHost [marchPhoto; holidayPhoto] yearZeroJanuary = [].
Proof.
  destruct (months_of_the_selected_year JS.utcHost
              [marchPhoto; holidayPhoto; holidayVideo; lastYearPhoto] january2024)
    as (_ & _ & _ & _ & Hlisted).
  destruct (months_of_the_selected_year JS.utcHost [marchPhoto; holidayPhoto]
              yearZeroJanuary) as (Hempty & _).
  split; [vm_compute; reflexivity |]. split.
  - apply (Hlisted 2024 2 marchPhoto); [reflexivity | lia | left; reflexivity | ..];
      vm_compute; reflexivity.
  - apply Hempty. reflexivity.
Defined.



(** ** Visible folders *)

Section RankFacts.
Context {A : Type} (compareFn : A -> A -> option Z) (rank : A -> Z).
Hypothesis rank_first : forall a b,
    (JS.comesBefore compareFn a b = true -> rank a <= rank b)
    /\ (JS.comesBefore compareFn a b = false -> rank b <= rank a).

Lemma insertSorted_ranked (x : A) (l : list A) :
  StronglySorted (fun a b => rank a <= rank b) l ->
  StronglySorted (fun a b => rank a <= rank b) (JS.insertSorted compareFn x l).
Proof.
  intros Hsorted. induction Hsorted as [| y l Hsorted IH Hall]; simpl.
  - repeat constructor.
  - destruct (JS.comesBefore compareFn x y) eqn:Hcmp.
    + apply rank_first in Hcmp. constructor; [constructor; assumption |].
      constructor; [exact Hcmp |].
      rewrite List.Forall_forall in Hall |- *. intros z Hz. specialize (Hall z Hz). lia.
    + apply rank_first in Hcmp. constructor; [exact IH |].
      rewrite List.Forall_forall in Hall |- *. intros z Hz.
      apply insertSorted_In in Hz as [-> | Hz]; [exact Hcmp | apply Hall, Hz].
Qed.

Lemma sort_ranked (l : list A) :
  StronglySorted (fun a b => rank a <= rank b) (JS.sort compareFn l).
Proof.
  induction l as [| x l IH]; simpl; [constructor |].
  apply insertSorted_ranked, IH.
Qed.

End RankFacts.

Lemma StronglySorted_firstn {A} (R : A -> A -> Prop) (n : nat) (l : list A) :
  StronglySorted R l -> StronglySorted R (firstn n l).
Proof.
  intros Hsorted. revert n. induction Hsorted as [| x l _ IH Hall]; intros n.
  - rewrite firstn_nil. constructor.
  - destruct n as [| n]; simpl; constructor; [apply IH |].
    rewrite List.Forall_forall in Hall |- *. intros y Hy.
    apply Hall. rewrite <- (firstn_skipn n l). apply in_or_app. left. exact Hy.
Qed.

Lemma NoDup_firstn {A} (n : nat) (l : list A) : List.NoDup l -> List.NoDup (firstn n l).
Proof.
  intros Hnodup. rewrite <- (firstn_skipn n l) in Hnodup.
  apply List.NoDup_app_remove_r in Hnodup. exact Hnodup.
Qed.

Lemma firstn_keeps {A} (n : nat) (l : list A) (x : A) : In x (firstn n l) -> In x l.
Proof.
  intros Hin. rewrite <- (firstn_skipn n l). apply in_or_app. left. exact Hin.
Qed.

Lemma sliceFromStart_In {A} (end_ : Z) (l : list A) (x : A) :
  In x (sliceFromStart end_ l) -> In x l.
Proof. unfold sliceFromStart. apply firstn_keeps. Qed.

(** X16. The [visibleFolders] store shows folders of [folders] only and
    never a hidden one; pinned folders come before all others; a
    non-negative [maxVisibleFolders] bounds the length; and when it is at
    least the number of folders, every folder that is not hidden is
    shown. *)
Theorem visibleFolders_respects_settings :
  forall h folderList settings,
    let visible := visibleFolders h folderList settings in
    Forall (fun f => In f folderList /\ ~ In f (hiddenFolders settings)) visible
    /\ StronglySorted (fun a b => In b (pinnedFolders settings) ->
                                  In a (pinnedFolders settings)) visible
    /\ (0 <= maxVisibleFolders settings ->
        arrayLength visible <= maxVisibleFolders settings)
    /\ (arrayLength folderList <= maxVisibleFolders settings ->
        forall f, In f folderList -> ~ In f (hiddenFolders settings) -> In f visible)
    /\ (List.NoDup folderList -> List.NoDup visible).
Proof.
  intros h folderList settings visible.
  set (hidden := JSSet.ofArray String.eqb (hiddenFolders settings)).
  set (pinned := JSSet.ofArray String.eqb (pinnedFolders settings)).
  set (shown := List.filter (fun f => negb (JSSet.has String.eqb f hidden)) folderList).
  set (sorted := JS.sort (pinnedFirst h pinned) shown).
  assert (Hvisible : visible = sliceFromStart (maxVisibleFolders settings) sorted)
    by reflexivity.
  assert (Hhidden : forall f, JSSet.has String.eqb f hidden = true
                              <-> In f (hiddenFolders settings)).
  { intros f. unfold hidden.
    rewrite (JSSet_has_In String.eqb string_eqb_eq).
    apply (JSSet_ofArray_In String.eqb string_eqb_eq). }
  assert (Hpinned : forall f, JSSet.has String.eqb f pinned = true
                              <-> In f (pinnedFolders settings)).
  { intros f. unfold pinned.
    rewrite (JSSet_has_In String.eqb string_eqb_eq).
    apply (JSSet_ofArray_In String.eqb string_eqb_eq). }
  assert (Hshown : forall f, In f sorted <-> In f folderList /\ ~ In f (hiddenFolders settings)).
  { intros f. unfold sorted, shown. rewrite sort_In, filter_In, negb_true_iff.
    rewrite <- Hhidden. destruct (JSSet.has String.eqb f hidden); intuition congruence. }
  split; [| split; [| split; [| split]]].
  - apply List.Forall_forall. intros f Hf. rewrite Hvisible in Hf.
    apply sliceFromStart_In, Hshown in Hf. exact Hf.
  - rewrite Hvisible. unfold sliceFromStart. apply StronglySorted_firstn.
    set (rank := fun f : string => if JSSet.has String.eqb f pinned then 0 else 1).
    apply (StronglySorted_weaken (fun a b => rank a <= rank b)).
    + intros a b _ _ Hrank Hb. apply Hpinned. apply Hpinned in Hb.
      unfold rank in Hrank. rewrite Hb in Hrank.
      destruct (JSSet.has String.eqb a pinned); [reflexivity | lia].
    + apply sort_ranked. intros a b. unfold JS.comesBefore, pinnedFirst, rank.
      destruct (JSSet.has String.eqb a pinned), (JSSet.has String.eqb b pinned); simpl;
        split; intros; try lia; discriminate.
  - intros Hmax. rewrite Hvisible. unfold sliceFromStart, arrayLength.
    rewrite length_firstn.
    destruct (Z.ltb_spec (maxVisibleFolders settings) 0); lia.
  - intros Hroom f Hf Hnot. rewrite Hvisible. unfold sliceFromStart.
    assert (Hlen : (length sorted <= length folderList)%nat).
    { unfold sorted. rewrite (Permutation_length (sort_Permutation _ _)).
      apply stage_length_any. }
    rewrite firstn_all2; [apply Hshown; split; assumption |].
    unfold arrayLength in *.
    destruct (Z.ltb_spec (maxVisibleFolders settings) 0); lia.
  - intros Hnodup. rewrite Hvisible. unfold sliceFromStart. apply NoDup_firstn.
    unfold sorted. eapply Permutation_NoDup; [symmetry; apply sort_Permutation |].
    unfold shown. apply List.NoDup_filter, Hnodup.
Qed.

Lemma visibleFolders_respects_settings_witness :
  visibleFolders JS.utcHost ["albums"; "family"; "inbox"; "tmp"; "trips"] tidySettings
  = ["family"; "trips"; "albums"]
  /\ arrayLength (visibleFolders JS.utcHost ["albums"; "family"; "inbox"; "tmp"; "trips"]
                                 tidySettings) <= 3.
Proof.
  split; [vm_compute; reflexivity |].
  destruct (visibleFolders_respects_settings JS.utcHost
              ["albums"; "family"; "inbox"; "tmp"; "trips"] tidySettings)
    as (_ & _ & Hbound & _).
  apply Hbound. simpl. lia.
Defined.

(** ** Settings *)




(** ** Hiding and pinning folders *)

Lemma indexOfFrom_absent (x : string) (l : list string) (i : Z) :
  ~ In x l -> indexOfFrom x l i = -1.
Proof.
  revert i. induction l as [| y l IH]; intros i Hnot; simpl; [reflexivity |].
  destruct (String.eqb_spec y x) as [-> | _]; [exfalso; apply Hnot; left; reflexivity |].
  apply IH. intros Hin. apply Hnot. right. exact Hin.
Qed.

Lemma indexOfFrom_present (x : string) (l : list string) (i : Z) :
  In x l ->
  i <= indexOfFrom x l i
  /\ spliceOne (indexOfFrom x l i - i) l = removeFirst x l.
Proof.
  revert i. induction l as [| y l IH]; intros i Hin; [destruct Hin |]. simpl.
  destruct (String.eqb_spec y x) as [-> | Hne].
  - split; [lia |]. rewrite Z.sub_diag. reflexivity.
  - destruct Hin as [Heq | Hin]; [congruence |].
    destruct (IH (i + 1) Hin) as [Hle Hsplice]. split; [lia |].
    unfold spliceOne in *.
    replace (Z.to_nat (indexOfFrom x l (i + 1) - i))
      with (S (Z.to_nat (indexOfFrom x l (i + 1) - (i + 1)))) by lia.
    simpl. f_equal. exact Hsplice.
Qed.

Lemma toggleFolder_cases (folder : string) (l : list string) :
  (In folder l /\ toggleFolder folder l = removeFirst folder l)
  \/ (~ In folder l /\ toggleFolder folder l = l ++ [folder]).
Proof.
  unfold toggleFolder, indexOf.
  destruct (in_dec string_dec folder l) as [Hin | Hnot].
  - left. split; [exact Hin |].
    destruct (indexOfFrom_present folder l 0 Hin) as [Hle Hsplice].
    rewrite Z.sub_0_r in Hsplice.
    destruct (Z.leb_spec 0 (indexOfFrom folder l 0)); [exact Hsplice | lia].
  - right. split; [exact Hnot |]. rewrite indexOfFrom_absent by exact Hnot. reflexivity.
Qed.

Lemma removeFirst_In (x y : string) (l : list string) :
  List.NoDup l -> (In y (removeFirst x l) <-> In y l /\ y <> x).
Proof.
  induction 1 as [| z l Hfresh Hnodup IH]; simpl; [tauto |].
  destruct (String.eqb_spec z x) as [-> | Hne].
  - split; [intros Hin; split; [auto | congruence] | intros [[Heq | Hin] Hyx]];
      [congruence | exact Hin].
  - simpl. rewrite IH. split; [intros [<- | [Hin Hyx]]; auto | intuition].
Qed.

Lemma removeFirst_NoDup (x : string) (l : list string) :
  List.NoDup l -> List.NoDup (removeFirst x l).
Proof.
  induction 1 as [| z l Hfresh Hnodup IH]; simpl; [constructor |].
  destruct (String.eqb z x); [exact Hnodup |].
  constructor; [| exact IH]. rewrite removeFirst_In by exact Hnodup. tauto.
Qed.

Lemma removeFirst_last (x : string) (l : list string) :
  ~ In x l -> removeFirst x (l ++ [x]) = l.
Proof.
  induction l as [| z l IH]; intros Hnot; simpl.
  - rewrite String.eqb_refl. reflexivity.
  - destruct (String.eqb_spec z x) as [-> | _]; [exfalso; apply Hnot; left; reflexivity |].
    rewrite IH; [reflexivity |]. intros Hin. apply Hnot. right. exact Hin.
Qed.

Lemma toggleFolder_flips (folder : string) (l : list string) :
  List.NoDup l ->
  List.NoDup (toggleFolder folder l)
  /\ (In folder (toggleFolder folder l) <-> ~ In folder l)
  /\ (forall other, other <> folder ->
                    (In other (toggleFolder folder l) <-> In other l))
  /\ (~ In folder l -> toggleFolder folder (toggleFolder folder l) = l).
Proof.
  intros Hnodup.
  destruct (toggleFolder_cases folder l) as [[Hin ->] | [Hnot ->]].
  - split; [apply removeFirst_NoDup, Hnodup |].
    split; [rewrite removeFirst_In by exact Hnodup; tauto |].
    split; [intros other Hne; rewrite removeFirst_In by exact Hnodup; tauto |].
    contradiction.
  - split.
    { apply List.NoDup_rev in Hnodup. rewrite <- (rev_involutive (l ++ [folder])).
      apply List.NoDup_rev. rewrite rev_app_distr. simpl. constructor; [| exact Hnodup].
      rewrite <- in_rev. exact Hnot. }
    split; [rewrite in_app_iff; simpl; tauto |].
    split; [intros other Hne; rewrite in_app_iff; simpl; intuition congruence |].
    intros _.
    destruct (toggleFolder_cases folder (l ++ [folder])) as [[_ ->] | [Hnot' _]].
    + apply removeFirst_last, Hnot.
    + exfalso. apply Hnot'. apply in_or_app. right. left. reflexivity.
Qed.

Lemma arrayIncludes_In (arr : list string) (x : string) :
  JS.arrayIncludes arr x = true <-> In x arr.
Proof. apply existsb_eqb_In. Qed.

(** X18. Hiding and pinning toggle.  On a list without repetitions,
    [toggleFolderHidden] flips whether the folder is hidden, leaves every
    other folder and the pinned list as they were and keeps the list free of
    repetitions; [toggleFolderPinned] does the same to the pinned list; a
    folder just hidden is shown by no [visibleFolders]; and hiding then
    unhiding a folder gives the settings back. *)
Theorem folder_toggles_flip :
  forall folder s,
    List.NoDup (hiddenFolders s) -> List.NoDup (pinnedFolders s) ->
    let hid := toggleFolderHidden folder s in
    let pin := toggleFolderPinned folder s in
    isFolderHidden folder hid = negb (isFolderHidden folder s)
    /\ isFolderPinned folder pin = negb (isFolderPinned folder s)
    /\ (forall other, other <> folder ->
                      isFolderHidden other hid = isFolderHidden other s
                      /\ isFolderPinned other pin = isFolderPinned other s)
    /\ List.NoDup (hiddenFolders hid) /\ List.NoDup (pinnedFolders pin)
    /\ pinnedFolders hid = pinnedFolders s /\ hiddenFolders pin = hiddenFolders s
    /\ (isFolderHidden folder s = false ->
        (forall h folderList, ~ In folder (visibleFolders h folderList hid))
        /\ toggleFolderHidden folder hid = s).
Proof.
  intros folder s Hhidden Hpinned hid pin.
  destruct (toggleFolder_flips folder (hiddenFolders s) Hhidden)
    as (Hnd1 & Hflip1 & Hother1 & Hback1).
  destruct (toggleFolder_flips folder (pinnedFolders s) Hpinned)
    as (Hnd2 & Hflip2 & Hother2 & _).
  assert (Hbool : forall (b c : bool), (b = true <-> c = true) -> b = c).
  { intros [|] [|] Hiff; try reflexivity; [symmetry |]; apply Hiff; reflexivity. }
  split; [| split; [| split; [| split; [| split; [| split; [| split]]]]]].
  - apply Hbool. unfold isFolderHidden, hid. simpl.
    rewrite negb_true_iff, <- not_true_iff_false, !arrayIncludes_In. exact Hflip1.
  - apply Hbool. unfold isFolderPinned, pin. simpl.
    rewrite negb_true_iff, <- not_true_iff_false, !arrayIncludes_In. exact Hflip2.
  - intros other Hne. split; apply Hbool.
    + unfold isFolderHidden, hid. simpl. rewrite !arrayIncludes_In. apply Hother1, Hne.
    + unfold isFolderPinned, pin. simpl. rewrite !arrayIncludes_In. apply Hother2, Hne.
  - exact Hnd1.
  - exact Hnd2.
  - reflexivity.
  - reflexivity.
  - intros Hshown.
    assert (Hnot : ~ In folder (hiddenFolders s)).
    { rewrite <- arrayIncludes_In. unfold isFolderHidden in Hshown.
      rewrite Hshown. discriminate. }
    split.
    + intros h folderList Hvisible.
      unfold visibleFolders in Hvisible.
      apply sliceFromStart_In, sort_In, filter_In in Hvisible as [_ Hkept].
      apply negb_true_iff in Hkept.
      assert (Hhas : JSSet.has String.eqb folder
                       (JSSet.ofArray String.eqb (hiddenFolders hid)) = true).
      { apply (JSSet_has_In String.eqb string_eqb_eq).
        apply (JSSet_ofArray_In String.eqb string_eqb_eq).
        unfold hid. simpl. apply Hflip1, Hnot. }
      congruence.
    + unfold hid, toggleFolderHidden, updateSettings. simpl.
      rewrite (Hback1 Hnot). destruct s. reflexivity.
Qed.

Lemma folder_toggles_flip_witness :
  isFolderHidden "inbox" (toggleFolderHidden "inbox" tidySettings) = true
  /\ isFolderPinned "trips" (toggleFolderPinned "trips" tidySettings) = false
  /\ toggleFolderHidden "inbox" (toggleFolderHidden "inbox" tidySettings) = tidySettings.
Proof.
  assert (Hhidden : List.NoDup (hiddenFolders tidySettings))
    by (simpl; repeat constructor; simpl; tauto).
  assert (Hpinned : List.NoDup (pinnedFolders tidySettings)).
  { simpl. repeat constructor; simpl; intuition discriminate. }
  destruct (folder_toggles_flip "inbox" tidySettings Hhidden Hpinned)
    as (Hhid & _ & _ & _ & _ & _ & _ & Hback).
  destruct (folder_toggles_flip "trips" tidySettings Hhidden Hpinned)
    as (_ & Hpin & _).
  split; [rewrite Hhid; reflexivity |]. split; [rewrite Hpin; reflexivity |].
  apply Hback. reflexivity.
Defined.

(** ** The detail view *)

Lemma at_Some {A} (arr : list A) (i : Z) (x : A) :
  at_ arr i = Some x <-> 0 <= i /\ nth_error arr (Z.to_nat i) = Some x.
Proof.
  unfold at_. destruct (Z.ltb_spec i 0); split.
  - discriminate.
  - intros [Hi _]. lia.
  - auto.
  - tauto.
Qed.

Lemma withIndex_length (start : Z) (arr : list Photo) :
  length (withIndex start arr) = length arr.
Proof.
  revert start. induction arr as [| p arr IH]; intros start; simpl; [reflexivity |].
  rewrite IH. reflexivity.
Qed.

Lemma withIndex_nth (start : Z) (arr : list Photo) (k : nat) (p : Photo) (idx : Z) :
  nth_error (withIndex start arr) k = Some (p, idx)
  <-> nth_error arr k = Some p /\ idx = start + Z.of_nat k.
Proof.
  revert start k. induction arr as [| q arr IH]; intros start k; simpl.
  - destruct k; simpl; split; [discriminate | intros [[=] _] | discriminate | intros [[=] _]].
  - destruct k as [| k]; simpl.
    + split; [intros [= -> ->]; split; [reflexivity | lia] |].
      intros [[= ->] ->]. f_equal. f_equal. lia.
    + rewrite IH. split; intros [Hnth ->]; (split; [exact Hnth | lia]).
Qed.

Lemma sliceRange_nth {A} (start end_ : Z) (arr : list A) (k : nat) :
  0 <= start -> (Z.of_nat k < end_ - start) ->
  nth_error (sliceRange start end_ arr) k = nth_error arr (Z.to_nat start + k).
Proof.
  intros Hstart Hk. unfold sliceRange.
  rewrite nth_error_firstn.
  destruct (Nat.ltb_spec k (Z.to_nat (end_ - start))) as [_ | Hge]; [| lia].
  rewrite nth_error_skipn. reflexivity.
Qed.

Lemma sliceRange_length {A} (start end_ : Z) (arr : list A) :
  0 <= start <= end_ -> end_ <= arrayLength arr ->
  arrayLength (sliceRange start end_ arr) = end_ - start.
Proof.
  intros Hstart Hend. unfold sliceRange, arrayLength in *.
  rewrite length_firstn, length_skipn. lia.
Qed.

(** The start and the end of the window [getFilmstripPhotosOf] cuts. *)
Lemma filmstrip_window (halfWindow index : Z) (photos : list Photo) :
  0 <= halfWindow -> 0 <= index < arrayLength photos ->
  exists start end_,
    getFilmstripPhotosOf halfWindow (2 * halfWindow + 1) index photos
    = withIndex start (sliceRange start end_ photos)
    /\ 0 <= start <= index /\ index < end_ <= arrayLength photos
    /\ end_ - start = Z.min (arrayLength photos) (2 * halfWindow + 1).
Proof.
  intros Hhalf Hindex. unfold getFilmstripPhotosOf.
  destruct (Z.ltb_spec index 0) as [Hneg | _]; [lia |].
  destruct (Z.eqb_spec (arrayLength photos) 0) as [Hempty | _]; [lia |].
  cbn [orb].
  set (len := arrayLength photos) in *.
  set (start := Z.max 0 (index - halfWindow)).
  set (end_ := Z.min len (index + halfWindow + 1)).
  destruct (Z.ltb_spec (end_ - start) (2 * halfWindow + 1)) as [Hshort | Hfull].
  - destruct (Z.eqb_spec start 0) as [Hzero | Hpos].
    + exists start, (Z.min len (2 * halfWindow + 1)). split; [reflexivity |].
      subst start end_. lia.
    + exists (Z.max 0 (end_ - (2 * halfWindow + 1))), end_. split; [reflexivity |].
      subst start end_. lia.
  - exists start, end_. split; [reflexivity |]. subst start end_. lia.
Qed.

(** X19. The filmstrip window.  For a valid index both detail views cut a
    window of as many consecutive photos as the list allows, 7 for the one
    and 9 for the other, that contains the current photo; each item carries
    the position its photo has in the list.  Without a current photo or
    without photos the filmstrip is empty. *)
Theorem filmstrip_is_a_window_on_the_current_photo :
  forall index photos,
    (index < 0 \/ photos = [] ->
     getFilmstripPhotos index photos = [] /\ getFilmstripPhotosWide index photos = [])
    /\ (0 <= index < arrayLength photos ->
        forall strip items,
          (strip = getFilmstripPhotos index photos /\ items = 7)
          \/ (strip = getFilmstripPhotosWide index photos /\ items = 9) ->
          arrayLength strip = Z.min (arrayLength photos) items
          /\ (forall photo idx, In (photo, idx) strip -> at_ photos idx = Some photo)
          /\ (exists photo, In (photo, index) strip)
          /\ (forall k photo idx,
                 nth_error strip k = Some (photo, idx) ->
                 idx = snd (hd (photo, idx) strip) + Z.of_nat k)).
Proof.
  intros index photos. split.
  - intros [Hneg | ->].
    + unfold getFilmstripPhotos, getFilmstripPhotosWide, getFilmstripPhotosOf.
      apply Z.ltb_lt in Hneg. rewrite Hneg. split; reflexivity.
    + unfold getFilmstripPhotos, getFilmstripPhotosWide, getFilmstripPhotosOf.
      rewrite orb_true_r. split; reflexivity.
  - intros Hindex strip items Hwhich.
    assert (Hwindow : exists start end_,
               strip = withIndex start (sliceRange start end_ photos)
               /\ 0 <= start <= index /\ index < end_ <= arrayLength photos
               /\ end_ - start = Z.min (arrayLength photos) items).
    { destruct Hwhich as [[-> ->] | [-> ->]].
      - apply (filmstrip_window 3 index photos); [lia | exact Hindex].
      - apply (filmstrip_window 4 index photos); [lia | exact Hindex]. }
    destruct Hwindow as (start & end_ & -> & Hstart & Hend & Hsize).
    assert (Hlen : arrayLength (withIndex start (sliceRange start end_ photos))
                   = end_ - start).
    { unfold arrayLength at 1. rewrite withIndex_length.
      apply sliceRange_length; lia. }
    assert (Hnth : forall k photo idx,
               nth_error (withIndex start (sliceRange start end_ photos)) k
               = Some (photo, idx) ->
               idx = start + Z.of_nat k /\ at_ photos idx = Some photo).
    { intros k photo idx Hk.
      assert (Hbound : Z.of_nat k < end_ - start).
      { rewrite <- Hlen. unfold arrayLength.
        apply Nat2Z.inj_lt, nth_error_Some. rewrite Hk. discriminate. }
      apply withIndex_nth in Hk as [Hk ->]. split; [reflexivity |].
      rewrite sliceRange_nth in Hk by lia.
      apply at_Some. split; [lia |].
      replace (Z.to_nat (start + Z.of_nat k)) with (Z.to_nat start + k)%nat by lia.
      exact Hk. }
    split; [rewrite Hlen; exact Hsize |]. split; [| split].
    + intros photo idx Hin. apply In_nth_error in Hin as [k Hk].
      apply (Hnth k photo idx Hk).
    + assert (Hk : (Z.to_nat (index - start)
                    < length (withIndex start (sliceRange start end_ photos)))%nat)
        by (unfold arrayLength in Hlen; lia).
      apply nth_error_Some in Hk.
      destruct (nth_error _ (Z.to_nat (index - start))) as [[photo idx] |] eqn:Hitem;
        [| congruence].
      exists photo. destruct (Hnth _ _ _ Hitem) as [-> _].
      assert (Hat : start + Z.of_nat (Z.to_nat (index - start)) = index) by lia.
      rewrite Hat in Hitem. apply (nth_error_In _ _ Hitem).
    + intros k photo idx Hk. destruct (Hnth k photo idx Hk) as [-> _].
      destruct (withIndex start (sliceRange start end_ photos)) as [| [p0 i0] rest] eqn:Hstrip;
        [destruct k; discriminate |].
      simpl. destruct (Hnth 0%nat p0 i0 eq_refl) as [-> _]. lia.
Qed.

Lemma filmstrip_is_a_window_on_the_current_photo_witness :
  map snd (getFilmstripPhotos 1 (fetchedPage 0)) = seqZ 0 7
  /\ map snd (getFilmstripPhotosWide 98 (fetchedPage 0)) = seqZ 91 9
  /\ arrayLength (getFilmstripPhotos 3 (firstn 5 (fetchedPage 0))) = 5.
Proof.
  split; [vm_compute; reflexivity |]. split; [vm_compute; reflexivity |].
  destruct (filmstrip_is_a_window_on_the_current_photo 3 (firstn 5 (fetchedPage 0)))
    as [_ Hwindow].
  destruct (Hwindow ltac:(vm_compute; split; [discriminate | reflexivity])
                    (getFilmstripPhotos 3 (firstn 5 (fetchedPage 0))) 7
                    (or_introl (conj eq_refl eq_refl))) as (Hlen & _).
  rewrite Hlen. reflexivity.
Defined.

Section FindIndexFacts.
Context {A : Type}.
Variable pred : A -> bool.

Lemma findIndexFrom_found (arr : list A) (i : Z) :
  0 <= i ->
  findIndexFrom pred arr i = -1
  \/ (i <= findIndexFrom pred arr i < i + arrayLength arr
      /\ exists x, nth_error arr (Z.to_nat (findIndexFrom pred arr i - i)) = Some x
                   /\ pred x = true).
Proof.
  revert i. induction arr as [| a arr IH]; intros i Hi; simpl; [left; reflexivity |].
  destruct (pred a) eqn:Ha.
  - right. unfold arrayLength. simpl length. split; [lia |].
    exists a. rewrite Z.sub_diag. split; [reflexivity | exact Ha].
  - destruct (IH (i + 1) ltac:(lia)) as [Hnone | [Hrange (x & Hx & Hpred)]];
      [left; exact Hnone | right].
    unfold arrayLength in *. simpl length. split; [lia |].
    exists x. split; [| exact Hpred].
    replace (Z.to_nat (findIndexFrom pred arr (i + 1) - i))
      with (S (Z.to_nat (findIndexFrom pred arr (i + 1) - (i + 1)))) by lia.
    exact Hx.
Qed.

Lemma findIndexFrom_first (arr : list A) (i : Z) (k : nat) (x : A) :
  nth_error arr k = Some x -> pred x = true ->
  (forall j y, (j < k)%nat -> nth_error arr j = Some y -> pred y = false) ->
  findIndexFrom pred arr i = i + Z.of_nat k.
Proof.
  revert i k. induction arr as [| a arr IH]; intros i k Hk Hx Hbefore.
  - destruct k; discriminate.
  - destruct k as [| k]; simpl in *.
    + injection Hk as ->. rewrite Hx. lia.
    + rewrite (Hbefore 0%nat a ltac:(lia) eq_refl).
      rewrite (IH (i + 1) k Hk Hx); [lia |].
      intros j y Hj Hy. apply (Hbefore (S j) y); [lia | exact Hy].
Qed.

End FindIndexFacts.

(** Where the ids are distinct, [currentIndex] is the position of the
    selected photo. *)
Lemma currentIndex_at (filtered : list Photo) (i : Z) (photo : Photo) :
  List.NoDup (map id filtered) -> at_ filtered i = Some photo ->
  currentIndex (Some photo) filtered = i.
Proof.
  intros Hnodup Hat. apply at_Some in Hat as [Hi Hnth].
  unfold currentIndex, findIndex.
  rewrite (findIndexFrom_first _ filtered 0 (Z.to_nat i) photo Hnth); [lia | apply Z.eqb_refl |].
  intros j y Hj Hy. apply Z.eqb_neq. intros Heq.
  assert (Hsame : j = Z.to_nat i); [| lia].
  apply (proj1 (List.NoDup_nth_error (map id filtered)) Hnodup).
  - rewrite length_map. apply nth_error_Some. rewrite Hy. discriminate.
  - rewrite !nth_error_map, Hy, Hnth. simpl. f_equal. exact Heq.
Qed.

Lemma currentIndex_found (selected : option Photo) (filtered : list Photo) :
  0 <= currentIndex selected filtered ->
  currentIndex selected filtered < arrayLength filtered
  /\ exists sel photo, selected = Some sel
       /\ at_ filtered (currentIndex selected filtered) = Some photo
       /\ id photo = id sel.
Proof.
  unfold currentIndex. destruct selected as [sel |]; [| lia].
  unfold findIndex. intros Hfound.
  destruct (findIndexFrom_found (fun p => id p =? id sel) filtered 0 ltac:(lia))
    as [Hnone | [Hrange (photo & Hnth & Hid)]]; [lia |].
  split; [lia |]. exists sel, photo. split; [reflexivity |].
  split; [| apply Z.eqb_eq; exact Hid].
  apply at_Some. split; [lia |].
  rewrite Z.sub_0_r in Hnth. exact Hnth.
Qed.

Lemma at_in_range {A} (arr : list A) (i : Z) :
  0 <= i < arrayLength arr -> exists x, at_ arr i = Some x.
Proof.
  intros Hi. unfold arrayLength in Hi.
  destruct (nth_error arr (Z.to_nat i)) as [x |] eqn:Hnth.
  - exists x. apply at_Some. split; [lia | exact Hnth].
  - apply nth_error_None in Hnth. lia.
Qed.

(** X20. Navigation in the detail view.  With no photo of the filtered list
    selected [navigate] does nothing.  Otherwise, on a list of distinct ids,
    "next" moves the position of the selected photo one step up and "prev"
    one step down, both stopping at the ends of the list; only the
    selected photo changes. *)
Theorem navigate_moves_one_step :
  forall direction filtered st,
    (currentIndex (selectedPhoto st) filtered < 0 -> navigate direction filtered st = st)
    /\ (List.NoDup (map id filtered) ->
        0 <= currentIndex (selectedPhoto st) filtered ->
        let i := currentIndex (selectedPhoto st) filtered in
        let st' := navigate direction filtered st in
        currentIndex (selectedPhoto st') filtered
        = match direction with
          | Direction.prev => Z.max 0 (i - 1)
          | Direction.next => Z.min (arrayLength filtered - 1) (i + 1)
          end
        /\ set_selectedPhoto (selectedPhoto st) st' = st).
Proof.
  intros direction filtered st. split.
  - intros Hnone. unfold navigate. apply Z.ltb_lt in Hnone. rewrite Hnone. reflexivity.
  - intros Hnodup Hfound i st'.
    destruct (currentIndex_found _ _ Hfound) as [Hbelow _]. fold i in Hfound, Hbelow.
    subst st'. unfold navigate. fold i.
    destruct (Z.ltb_spec i 0) as [Hneg | _]; [lia |].
    set (newIndex := match direction with
                     | Direction.prev => Z.max 0 (i - 1)
                     | Direction.next => Z.min (arrayLength filtered - 1) (i + 1)
                     end).
    assert (Hrange : 0 <= newIndex < arrayLength filtered)
      by (subst newIndex; destruct direction; lia).
    destruct (Z.eqb_spec newIndex i) as [Hsame | Hmoved]; simpl negb; cbv iota.
    + split; [fold i; symmetry; exact Hsame | destruct st; reflexivity].
    + destruct (at_in_range filtered newIndex Hrange) as [photo Hphoto].
      rewrite Hphoto. simpl selectedPhoto.
      split; [apply currentIndex_at; assumption | destruct st; reflexivity].
Qed.

Lemma navigate_moves_one_step_witness :
  let filtered := firstn 5 (fetchedPage 0) in
  let st := set_selectedPhoto (at_ filtered 3) sampleStore in
  currentIndex (selectedPhoto (navigate Direction.next filtered st)) filtered = 4
  /\ currentIndex (selectedPhoto
                     (navigate Direction.next filtered
                        (navigate Direction.next filtered st))) filtered = 4.
Proof.
  intros filtered st.
  assert (Hnodup : List.NoDup (map id filtered)).
  { apply (proj2 (List.NoDup_nth_error _)). vm_compute length.
    intros i j Hi Hnth. do 5 (destruct i as [| i]; [
      do 5 (destruct j as [| j]; [first [reflexivity | discriminate Hnth] |]);
      destruct j; discriminate Hnth |]). lia. }
  split.
  - destruct (navigate_moves_one_step Direction.next filtered st) as [_ Hstep].
    destruct (Hstep Hnodup ltac:(vm_compute; discriminate)) as [Hpos _].
    rewrite Hpos. vm_compute. reflexivity.
  - vm_compute. reflexivity.
Defined.

(** X21. Jumping from the filmstrip.  On a list of distinct ids
    [goToPhoto] selects the photo at the requested position, so that
    [currentIndex] reads that position back; a position outside the list
    leaves the store as it is. *)
Theorem goToPhoto_then_currentIndex :
  forall idx filtered st,
    (idx < 0 \/ arrayLength filtered <= idx -> goToPhoto idx filtered st = st)
    /\ (List.NoDup (map id filtered) -> 0 <= idx < arrayLength filtered ->
        currentIndex (selectedPhoto (goToPhoto idx filtered st)) filtered = idx
        /\ selectedPhoto (goToPhoto idx filtered st) = at_ filtered idx
        /\ exists photo, at_ filtered idx = Some photo /\ In photo filtered).
Proof.
  intros idx filtered st. unfold goToPhoto. split.
  - intros Hout.
    destruct (Z.leb_spec 0 idx), (Z.ltb_spec idx (arrayLength filtered));
      simpl; first [reflexivity | lia].
  - intros Hnodup Hrange.
    destruct (Z.leb_spec 0 idx) as [_ | Hneg]; [| lia].
    destruct (Z.ltb_spec idx (arrayLength filtered)) as [_ | Hbig]; [| lia].
    simpl. destruct (at_in_range filtered idx Hrange) as [photo Hphoto].
    rewrite Hphoto. split; [apply currentIndex_at; assumption |].
    split; [reflexivity |]. exists photo. split; [reflexivity |].
    apply at_Some in Hphoto as [_ Hnth]. apply (nth_error_In _ _ Hnth).
Qed.

Lemma goToPhoto_then_currentIndex_witness :
  let filtered := firstn 5 (fetchedPage 0) in
  currentIndex (selectedPhoto (goToPhoto 2 filtered sampleStore)) filtered = 2.
Proof.
  intros filtered.
  assert (Hnodup : List.NoDup (map id filtered)).
  { apply (proj2 (List.NoDup_nth_error _)). vm_compute length.
    intros i j Hi Hnth. do 5 (destruct i as [| i]; [
      do 5 (destruct j as [| j]; [first [reflexivity | discriminate Hnth] |]);
      destruct j; discriminate Hnth |]). lia. }
  destruct (goToPhoto_then_currentIndex 2 filtered sampleStore) as [_ Hjump].
  destruct (Hjump Hnodup ltac:(vm_compute; split; [discriminate | reflexivity]))
    as [Hpos _].
  exact Hpos.
Defined.

(** ** Tags and albums *)

Lemma filter_none_matching {A} (f : A -> bool) (l : list A) :
  (forall x, In x l -> f x = true) -> List.filter f l = l.
Proof.
  induction l as [| a l IH]; intros Hall; simpl; [reflexivity |].
  rewrite (Hall a (or_introl eq_refl)). f_equal.
  apply IH. intros x Hx. apply Hall. right. exact Hx.
Qed.

(** X22. Creating and deleting tags and albums.  A tag or an album the
    backend creates under an id not in use yet is removed again by deleting
    that id, which gives back the list as it was; after a delete nothing
    with the deleted id is left; and a command the backend rejects leaves
    the list as it is (a rejected create returns [null]). *)
Theorem create_then_delete_restores :
  forall (tags : list Tag.t) (albums : list Album.t) (tag : Tag.t) (album : Album.t)
         (name color reason : string) (anyId : Z),
    (~ In (Tag.id tag) (map Tag.id tags) ->
     deleteTag (Resolved tt) (Tag.id tag)
       (fst (createTag (Resolved tag) name color tags)) = tags)
    /\ (~ In (Album.id album) (map Album.id albums) ->
        deleteAlbum (Resolved tt) (Album.id album)
          (fst (createAlbum (Resolved album) name albums)) = albums)
    /\ ~ In anyId (map Tag.id (deleteTag (Resolved tt) anyId tags))
    /\ ~ In anyId (map Album.id (deleteAlbum (Resolved tt) anyId albums))
    /\ createTag (Rejected reason) name color tags = (tags, None)
    /\ createAlbum (Rejected reason) name albums = (albums, None)
    /\ deleteTag (Rejected reason) anyId tags = tags
    /\ deleteAlbum (Rejected reason) anyId albums = albums.
Proof.
  intros tags albums tag album name color reason anyId.
  split; [| split; [| split; [| split]]].
  - intros Hfresh. simpl. rewrite List.filter_app. simpl.
    rewrite Z.eqb_refl. simpl. rewrite app_nil_r.
    apply filter_none_matching. intros t Ht.
    apply negb_true_iff, Z.eqb_neq. intros Heq. apply Hfresh.
    rewrite <- Heq. apply in_map, Ht.
  - intros Hfresh. simpl. rewrite Z.eqb_refl. simpl.
    apply filter_none_matching. intros a Ha.
    apply negb_true_iff, Z.eqb_neq. intros Heq. apply Hfresh.
    rewrite <- Heq. apply in_map, Ha.
  - simpl. rewrite in_map_iff. intros (t & Hid & Hin).
    apply filter_In in Hin as [_ Hkept].
    apply negb_true_iff, Z.eqb_neq in Hkept. contradiction.
  - simpl. rewrite in_map_iff. intros (a & Hid & Hin).
    apply filter_In in Hin as [_ Hkept].
    apply negb_true_iff, Z.eqb_neq in Hkept. contradiction.
  - repeat split.
Qed.

Lemma create_then_delete_restores_witness :
  deleteTag (Resolved tt) 3
    (fst (createTag (Resolved (sampleTag 3 "sea")) "sea" "#0071e3"
            [sampleTag 1 "family"; sampleTag 2 "work"]))
  = [sampleTag 1 "family"; sampleTag 2 "work"]
  /\ deleteAlbum (Resolved tt) 3
       (fst (createAlbum (Resolved (sampleAlbum 3 "Summer")) "Summer"
               [sampleAlbum 2 "Spring"; sampleAlbum 1 "Winter"]))
     = [sampleAlbum 2 "Spring"; sampleAlbum 1 "Winter"].
Proof.
  destruct (create_then_delete_restores
              [sampleTag 1 "family"; sampleTag 2 "work"]
              [sampleAlbum 2 "Spring"; sampleAlbum 1 "Winter"]
              (sampleTag 3 "sea") (sampleAlbum 3 "Summer")
              "sea" "#0071e3" "offline" 0) as (Htag & _).
  destruct (create_then_delete_restores
              [sampleTag 1 "family"; sampleTag 2 "work"]
              [sampleAlbum 2 "Spring"; sampleAlbum 1 "Winter"]
              (sampleTag 3 "sea") (sampleAlbum 3 "Summer")
              "Summer" "#0071e3" "offline" 0) as (_ & Halbum & _).
  split.
  - apply Htag. simpl. intros [H | [H | []]]; discriminate H.
  - apply Halbum. simpl. intros [H | [H | []]]; discriminate H.
Defined.

(** X23. Renaming an album in place.  [renameAlbum] keeps the ids, the
    order and every field but the name; afterwards every album of the given
    id carries the new name and every other album is as before; of two
    renames of the same album the later one wins; and renaming commutes
    with deleting. *)
Theorem renameAlbum_in_place :
  forall (albums : list Album.t) (albumId otherId : Z) (newName laterName : string),
    let renamed := renameAlbum (Resolved tt) albumId newName albums in
    map Album.id renamed = map Album.id albums
    /\ map Album.createdAt renamed = map Album.createdAt albums
    /\ map Album.photoCount renamed = map Album.photoCount albums
    /\ map Album.coverPath renamed = map Album.coverPath albums
    /\ (forall k a, nth_error renamed k = Some a ->
          exists a0, nth_error albums k = Some a0
            /\ if Album.id a0 =? albumId then Album.name a = newName else a = a0)
    /\ renameAlbum (Resolved tt) albumId laterName renamed
       = renameAlbum (Resolved tt) albumId laterName albums
    /\ deleteAlbum (Resolved tt) otherId renamed
       = renameAlbum (Resolved tt) albumId newName
           (deleteAlbum (Resolved tt) otherId albums).
Proof.
  intros albums albumId otherId newName laterName renamed. subst renamed. simpl.
  assert (Hfield : forall (B : Type) (f : Album.t -> B),
             (forall a n, f (Album.withName a n) = f a) ->
             map f (map (fun a => if Album.id a =? albumId
                                  then Album.withName a newName else a) albums)
             = map f albums).
  { intros B f Hf. rewrite map_map. apply map_ext. intros a.
    destruct (Album.id a =? albumId); [apply Hf | reflexivity]. }
  split; [apply Hfield; reflexivity |]. split; [apply Hfield; reflexivity |].
  split; [apply Hfield; reflexivity |]. split; [apply Hfield; reflexivity |].
  split; [| split].
  - intros k a Hk. rewrite nth_error_map in Hk.
    destruct (nth_error albums k) as [a0 |]; [| discriminate].
    exists a0. split; [reflexivity |]. simpl in Hk. injection Hk as <-.
    destruct (Album.id a0 =? albumId); reflexivity.
  - rewrite map_map. apply map_ext. intros a.
    destruct (Z.eqb_spec (Album.id a) albumId) as [Heq | Hne]; simpl.
    + apply Z.eqb_eq in Heq. rewrite Heq. reflexivity.
    + apply Z.eqb_neq in Hne. rewrite Hne. reflexivity.
  - clear Hfield. induction albums as [| a albums IH]; simpl; [reflexivity |].
    assert (Hid : Album.id (if Album.id a =? albumId then Album.withName a newName else a)
                  = Album.id a) by (destruct (Album.id a =? albumId); reflexivity).
    rewrite Hid. destruct (Album.id a =? otherId); simpl; [exact IH |].
    rewrite IH. reflexivity.
Qed.

Lemma renameAlbum_in_place_witness :
  exists a0,
    nth_error [sampleAlbum 2 "Spring"; sampleAlbum 1 "Winter"] 0 = Some a0
    /\ if Album.id a0 =? 2
       then Album.name (Album.withName (sampleAlbum 2 "Spring") "Autumn") = "Autumn"
       else Album.withName (sampleAlbum 2 "Spring") "Autumn" = a0.
Proof.
  destruct (renameAlbum_in_place [sampleAlbum 2 "Spring"; sampleAlbum 1 "Winter"]
              2 1 "Autumn" "Fall") as (_ & _ & _ & _ & Heach & _).
  apply (Heach 0%nat). reflexivity.
Defined.

(** ** The labels of the groups *)

Lemma JSMap_get_tabulated {V} (k : string) (g : string -> V) (ks : list string) :
  JSMap.get k (map (fun k' => (k', g k')) ks)
  = if existsb (String.eqb k) ks then Some (g k) else None.
Proof.
  induction ks as [| a ks IH]; simpl; [reflexivity |].
  rewrite (String.eqb_sym k a).
  destruct (String.eqb_spec a k) as [-> | _]; [reflexivity | exact IH].
Qed.

Section LabelFacts.
Variable h : JS.Host.
Variable now : Z.

Lemma bucket_present (l : list Photo) (k : string) :
  In k (map (dateKeyOf h now) l) ->
  exists first rest, bucket h now l k = first :: rest
    /\ In first l /\ dateKeyOf h now first = k.
Proof.
  intros Hin. apply in_map_iff in Hin as (p & Hkey & Hp).
  assert (Hb : In p (bucket h now l k)).
  { unfold bucket. apply filter_In. split; [exact Hp |].
    apply String.eqb_eq. exact Hkey. }
  destruct (bucket h now l k) as [| first rest] eqn:Hbucket; [contradiction |].
  exists first, rest. split; [reflexivity |].
  assert (Hfirst : In first (bucket h now l k)) by (rewrite Hbucket; left; reflexivity).
  unfold bucket in Hfirst. apply filter_In in Hfirst as [Hl Heq].
  split; [exact Hl | apply String.eqb_eq; exact Heq].
Qed.

Lemma firstLabel_snoc_seen (l : list Photo) (photo : Photo) (k : string) :
  In k (map (dateKeyOf h now) l) ->
  firstLabel h now (l ++ [photo]) k = firstLabel h now l k.
Proof.
  intros Hin. unfold firstLabel. rewrite bucket_snoc.
  destruct (bucket_present l k Hin) as (first & rest & -> & _).
  destruct (String.eqb (dateKeyOf h now photo) k); reflexivity.
Qed.

Lemma labelled_has (l : list Photo) (k : string) :
  JSMap.has k (labelled h now l) = existsb (String.eqb k) (map (dateKeyOf h now) l).
Proof.
  apply eq_true_iff_eq.
  rewrite JSMap_has_keys, existsb_eqb_In. unfold labelled.
  rewrite map_map. simpl. rewrite map_id. apply firstSeen_In.
Qed.

Lemma labelled_step (l : list Photo) (photo : Photo) :
  snd (groupStep h now (tabulated h now l, labelled h now l) photo)
  = labelled h now (l ++ [photo]).
Proof.
  assert (Hstep : snd (groupStep h now (tabulated h now l, labelled h now l) photo)
                  = if JSMap.has (dateKeyOf h now photo) (tabulated h now l)
                    then labelled h now l
                    else JSMap.set (dateKeyOf h now photo) (labelOf h now photo)
                           (labelled h now l)).
  { unfold groupStep, dateKeyOf, labelOf.
    destruct (labelAndKey h now photo) as [label dateKey]. simpl.
    destruct (JSMap.has dateKey (tabulated h now l)); reflexivity. }
  rewrite Hstep, tabulated_has. clear Hstep.
  unfold labelled at 3. rewrite map_app. simpl map. rewrite firstSeen_snoc.
  destruct (existsb (String.eqb (dateKeyOf h now photo)) (map (dateKeyOf h now) l))
    eqn:Hseen.
  - unfold labelled. apply map_ext_in. intros k Hin.
    rewrite firstLabel_snoc_seen; [reflexivity |].
    apply (proj1 (firstSeen_In _ _)). exact Hin.
  - assert (Habsent : ~ In (dateKeyOf h now photo) (map (dateKeyOf h now) l)).
    { rewrite <- existsb_eqb_In, Hseen. discriminate. }
    rewrite JSMap_set_fresh by (rewrite labelled_has; exact Hseen).
    rewrite map_app. simpl. unfold labelled. f_equal.
    + apply map_ext_in. intros k Hin.
      rewrite firstLabel_snoc_seen; [reflexivity |].
      apply (proj1 (firstSeen_In _ _)). exact Hin.
    + unfold firstLabel. rewrite bucket_snoc, String.eqb_refl.
      rewrite (bucket_absent h now l _ Habsent). reflexivity.
Qed.

Lemma groupLoop_maps (l : list Photo) :
  fold_left (groupStep h now) l (JSMap.empty, JSMap.empty)
  = (tabulated h now l, labelled h now l).
Proof.
  induction l as [| photo l IH] using rev_ind; [reflexivity |].
  rewrite fold_left_app, IH. cbn [fold_left].
  rewrite (surjective_pairing (groupStep h now _ photo)).
  rewrite tabulated_step, labelled_step. reflexivity.
Qed.

Lemma groupedPhotos_shape (l : list Photo) :
  groupedPhotos h now l
  = map (fun k => {| Group.label := firstLabel h now l k;
                     Group.dateKey := k;
                     Group.photos := bucket h now l k |})
        (firstSeen (map (dateKeyOf h now) l)).
Proof.
  unfold groupedPhotos. rewrite groupLoop_maps. unfold tabulated. rewrite map_map.
  apply map_ext_in. intros k Hin.
  unfold labelled. rewrite JSMap_get_tabulated.
  apply (proj1 (firstSeen_In _ _)) in Hin as Hseen.
  apply existsb_eqb_In in Hseen.
  assert (Hseen' : existsb (String.eqb k) (firstSeen (map (dateKeyOf h now) l)) = true)
    by (apply existsb_eqb_In; exact Hin).
  rewrite Hseen'. reflexivity.
Qed.

End LabelFacts.

(** X24. What a group carries.  No group of [groupedPhotos] is empty; a
    group's label is the one computed for its first photo, which is the
    first photo of the filtered list with the group's key; and an empty list
    gives no group. *)
Theorem groups_are_labelled_by_their_first_photo :
  forall h now filtered,
    Forall (fun g =>
              exists first rest,
                Group.photos g = first :: rest
                /\ Group.label g = fst (labelAndKey h now first)
                /\ Group.dateKey g = snd (labelAndKey h now first)
                /\ exists before after,
                     filtered = before ++ first :: after
                     /\ Forall (fun p => snd (labelAndKey h now p) <> Group.dateKey g)
                               before)
           (groupedPhotos h now filtered)
    /\ (groupedPhotos h now filtered = [] <-> filtered = []).
Proof.
  intros h now filtered. rewrite groupedPhotos_shape. split.
  - apply List.Forall_forall. intros g Hg.
    apply in_map_iff in Hg as (k & <- & Hk). simpl.
    apply (proj1 (firstSeen_In _ _)) in Hk.
    destruct (bucket_present h now filtered k Hk) as (first & rest & Hbucket & _ & Hkey).
    exists first, rest. unfold firstLabel. rewrite Hbucket.
    split; [reflexivity |]. split; [reflexivity |]. split; [symmetry; exact Hkey |].
    clear Hk Hkey. revert Hbucket. unfold bucket.
    induction filtered as [| p filtered IH]; simpl; [discriminate |].
    destruct (String.eqb_spec (dateKeyOf h now p) k) as [Heq | Hne].
    + intros [= -> _]. exists [], filtered. split; [reflexivity | constructor].
    + intros Hrest. destruct (IH Hrest) as (before & after & -> & Hbefore).
      exists (p :: before), after. split; [reflexivity |].
      constructor; [exact Hne | exact Hbefore].
  - split.
    + destruct filtered as [| p filtered]; [reflexivity | discriminate].
    + intros ->. reflexivity.
Qed.
